(** * CipherCoders landing page: a model of [src/js/main.js]

    The script wires three pieces of page behaviour to the DOM:
    a promotional popup shown by a timer, two forms posted with [fetch],
    and an FAQ accordion.  The development embeds the DOM fragment the
    script touches (a tree of elements with an id, a class list and form
    controls), the closures the script registers, and the state they act
    on, and proves the properties of the specification about them. *)

From stdpp Require Import base list sets strings.

#[local] Set Warnings "-clear-no-such-hyp".

(** ** The document tree *)

(** A form control as [reset()] and [FormData] see it: its name, its
    current value and the default value given by the markup. *)
Record control := Control {
  name : string;
  value : string;
  defaultValue : string
}.

(** What the script reads and writes on an element.  [id] is the id
    attribute ([None] when the markup gives none), [classList] the
    ordered token list of the class attribute, [field] is present on
    form controls. *)
Record attrs := Attrs {
  id : option string;
  classList : list string;
  field : option control
}.

#[local] Unset Elimination Schemes.
Inductive node :=
| Text (s : string)
| Elem (a : attrs) (childNodes : list node).
#[local] Set Elimination Schemes.

(** An element reference held by a closure of the script is the position
    of the element in the tree: the child indices from the root.  The
    script inserts and moves nothing; its one effect on the shape of the
    tree is that writing [textContent] replaces the children of the
    element written to. *)
Definition ref := list nat.

(** ** DOMTokenList: the [classList] operations the script calls *)
Module DOMTokenList.

Definition contains (c : string) (l : list string) : bool :=
  bool_decide (c ∈ l).

Definition add (c : string) (l : list string) : list string :=
  if contains c l then l else l ++ [c].

Definition remove (c : string) (l : list string) : list string :=
  filter (λ x, x ≠ c) l.

Definition toggle (c : string) (l : list string) : list string :=
  if contains c l then remove c l else l ++ [c].

End DOMTokenList.

(** ** Reading and updating the tree through a reference *)

Fixpoint get_node (t : node) (p : ref) : option node :=
  match p with
  | [] => Some t
  | i :: p' =>
      match t with
      | Elem _ kids => kids !! i ≫= λ k, get_node k p'
      | Text _ => None
      end
  end.

(** [alter_node g p t] replaces the node at [p] by its image under [g];
    a reference that leads nowhere changes nothing. *)
Fixpoint alter_node (g : node → node) (p : ref) (t : node) : node :=
  match p with
  | [] => g t
  | i :: p' =>
      match t with
      | Elem a kids => Elem a (alter (alter_node g p') i kids)
      | Text s => Text s
      end
  end.

Definition attrs_of (n : node) : option attrs :=
  match n with Elem a _ => Some a | Text _ => None end.

Definition attrs_at (t : node) (p : ref) : option attrs :=
  get_node t p ≫= attrs_of.

Definition on_attrs (f : attrs → attrs) (n : node) : node :=
  match n with
  | Elem a kids => Elem (f a) kids
  | Text s => Text s
  end.

Definition with_classList (f : list string → list string) (a : attrs) : attrs :=
  {| id := id a; classList := f (classList a); field := field a |}.

(** [el.classList.contains(c)] for the element at [p]. *)
Definition has_class (t : node) (p : ref) (c : string) : bool :=
  match attrs_at t p with
  | Some a => DOMTokenList.contains c (classList a)
  | None => false
  end.

(** The [textContent] getter: the text of all descendants in tree order. *)
Fixpoint textContent (n : node) : string :=
  match n with
  | Text s => s
  | Elem _ kids => foldr (λ k acc, textContent k +:+ acc) "" kids
  end.

(** The [textContent] setter: the children are replaced by one text node
    (by none when the string is empty). *)
Definition set_textContent (s : string) (n : node) : node :=
  match n with
  | Elem a _ => Elem a (if decide (s = "") then [] else [Text s])
  | Text _ => Text s
  end.

Definition textContent_at (t : node) (p : ref) : option string :=
  textContent <$> get_node t p.

(** ** Forms *)

Definition reset_control (c : control) : control :=
  {| name := name c; value := defaultValue c; defaultValue := defaultValue c |}.

Definition reset_attrs (a : attrs) : attrs :=
  {| id := id a; classList := classList a; field := reset_control <$> field a |}.

(** [form.reset()]: every control of the form goes back to its default. *)
Fixpoint reset (n : node) : node :=
  match n with
  | Text s => Text s
  | Elem a kids => Elem (reset_attrs a) (map reset kids)
  end.

(** [form.elements]: the controls of the form, in tree order. *)
Fixpoint elements (n : node) : list control :=
  match n with
  | Text _ => []
  | Elem a kids => option_list (field a) ++ concat (map elements kids)
  end.

Definition elements_at (t : node) (p : ref) : list control :=
  match get_node t p with
  | Some n => elements n
  | None => []
  end.

(** [new FormData(form)]: the name and current value of each control
    that has a name; a control without one (an empty or missing name
    attribute) is left out. *)
Definition FormData (n : node) : list (string * string) :=
  (λ c, (name c, value c)) <$> filter (λ c, name c ≠ "") (elements n).

(** ** Selectors *)

(** The elements of the subtree [n] (itself included) that satisfy [P],
    in tree order, as references relative to [n]. *)
Fixpoint matches (P : attrs → bool) (n : node) : list ref :=
  match n with
  | Text _ => []
  | Elem a kids =>
      (if P a then [[]] else []) ++
      (fix below (i : nat) (l : list node) : list ref :=
         match l with
         | [] => []
         | k :: l' => ((i ::.) <$> matches P k) ++ below (S i) l'
         end) 0 kids
  end.

(** The same for the children numbered from [i] on. *)
Fixpoint matches_from (P : attrs → bool) (i : nat) (l : list node) : list ref :=
  match l with
  | [] => []
  | k :: l' => ((i ::.) <$> matches P k) ++ matches_from P (S i) l'
  end.

(** The proper descendants of [n] that satisfy [P]. *)
Definition matches_below (P : attrs → bool) (n : node) : list ref :=
  match n with
  | Text _ => []
  | Elem _ kids => matches_from P 0 kids
  end.

Definition id_is (i : string) (a : attrs) : bool := bool_decide (id a = Some i).
Definition class_is (c : string) (a : attrs) : bool :=
  DOMTokenList.contains c (classList a).

(** [document.getElementById(i)]: the first element with that id. *)
Definition getElementById (i : string) (doc : node) : option ref :=
  head (matches (id_is i) doc).

(** [document.querySelectorAll("." + c)]. *)
Definition querySelectorAll (c : string) (doc : node) : list ref :=
  matches (class_is c) doc.

(** [item.querySelector("." + c)]: the first proper descendant of the
    element at [item] with class [c], or null. *)
Definition querySelector (c : string) (doc : node) (item : ref) : option ref :=
  n ← get_node doc item; (item ++.) <$> head (matches_below (class_is c) n).

(** ** The state the script runs in *)

Inductive event_name := DOMContentLoaded | click | submit.
Inductive target := Document | Element (r : ref).

#[global] Instance event_name_eq_dec : EqDecision event_name.
Proof. solve_decision. Defined.
#[global] Instance target_eq_dec : EqDecision target.
Proof. solve_decision. Defined.

(** The two forms share one handler body up to the ids and the texts. *)
Inductive form_kind := VipForm | ContactForm.

(** The functions the script hands to the browser, with the variables
    each one captures. *)
Inductive closure :=
| OnReady
| ShowPopup (popup : ref)
| HidePopup (popup : option ref)
| OpenDownload
| SubmitForm (k : form_kind) (form : ref) (status : option ref)
| ToggleFaq (answer arrow : option ref).

(** A [fetch] in flight, with what the suspended handler still holds. *)
Record request := Request {
  url : string;
  method : string;
  body : list (string * string);
  kind : form_kind;
  form : ref;
  status : option ref
}.

Inductive effect := PreventDefault | WindowOpen (u : string).

Record browser := Browser {
  document : node;
  listeners : list (target * event_name * closure);
  timers : list (nat * closure);
  clock : nat;
  inflight : list request;
  effects : list effect
}.

Definition set_document (f : node → node) (b : browser) : browser :=
  Browser (f (document b)) (listeners b) (timers b) (clock b) (inflight b) (effects b).
Definition set_listeners (f : list (target * event_name * closure) → _) (b : browser) : browser :=
  Browser (document b) (f (listeners b)) (timers b) (clock b) (inflight b) (effects b).
Definition set_timers (f : list (nat * closure) → _) (b : browser) : browser :=
  Browser (document b) (listeners b) (f (timers b)) (clock b) (inflight b) (effects b).
Definition set_clock (n : nat) (b : browser) : browser :=
  Browser (document b) (listeners b) (timers b) n (inflight b) (effects b).
Definition set_inflight (f : list request → list request) (b : browser) : browser :=
  Browser (document b) (listeners b) (timers b) (clock b) (f (inflight b)) (effects b).
Definition set_effects (f : list effect → list effect) (b : browser) : browser :=
  Browser (document b) (listeners b) (timers b) (clock b) (inflight b) (f (effects b)).

(** ** Statements: state passing with exceptions *)

Inductive exn := TypeError | NetworkError.

Inductive completion (A : Type) :=
| Normal (a : A)
| Throw (e : exn).
Arguments Normal {A} a.
Arguments Throw {A} e.

Definition M (A : Type) : Type := browser → browser * completion A.

#[global] Instance M_ret : MRet M := λ A a b, (b, Normal a).
#[global] Instance M_bind : MBind M := λ A B f m b,
  match m b with
  | (b', Normal a) => f a b'
  | (b', Throw e) => (b', Throw e)
  end.

Definition throw {A} (e : exn) : M A := λ b, (b, Throw e).

(** [try { m } catch { h }]: what [m] did before throwing stays done. *)
Definition try_catch {A} (m h : M A) : M A := λ b,
  match m b with
  | (b', Normal a) => (b', Normal a)
  | (b', Throw _) => h b'
  end.

(** Reading a property of a possibly null reference. *)
Definition deref {A} (o : option A) : M A :=
  match o with
  | Some a => mret a
  | None => throw TypeError
  end.

Definition update (f : browser → browser) : M unit := λ b, (f b, Normal ()).
Definition read {A} (f : browser → A) : M A := λ b, (b, Normal (f b)).

Definition byId (i : string) : M (option ref) := read (λ b, getElementById i (document b)).

Definition addEventListener (t : target) (e : event_name) (c : closure) : M unit :=
  update (set_listeners (λ l, l ++ [(t, e, c)])).

Definition setTimeout (c : closure) (delay : nat) : M unit :=
  update (λ b, set_timers (λ l, l ++ [(clock b + delay, c)]) b).

Definition classList_add (p : ref) (c : string) : M unit :=
  update (set_document (alter_node (on_attrs (with_classList (DOMTokenList.add c))) p)).
Definition classList_remove (p : ref) (c : string) : M unit :=
  update (set_document (alter_node (on_attrs (with_classList (DOMTokenList.remove c))) p)).
Definition classList_toggle (p : ref) (c : string) : M unit :=
  update (set_document (alter_node (on_attrs (with_classList (DOMTokenList.toggle c))) p)).

Definition window_open (u : string) : M unit :=
  update (set_effects (λ l, l ++ [WindowOpen u])).
Definition preventDefault : M unit :=
  update (set_effects (λ l, l ++ [PreventDefault])).

(** ** The popup (lines 3-11) *)

Definition show_popup (popup : ref) : M unit :=
  classList_add popup "show".

Definition hide_popup (popup : option ref) : M unit :=
  p ← deref popup; classList_remove p "show".

Definition open_download : M unit :=
  window_open "dist/aquabriz.exe".

(** ** The forms (lines 13-45) *)

Definition endpoint : string :=
  "https://script.google.com/macros/s/AKfycbxqNxU-QpYR-WBeHZsA34JOH2uWWIyz866pPiFN4ROj2NVc3nj0zZvZ3TNkTA4341-Ytg/exec".

Definition success_text (k : form_kind) : string :=
  match k with
  | VipForm => "Заявка отправлена!"
  | ContactForm => "Сообщение отправлено!"
  end.

Definition failure_text (k : form_kind) : string :=
  match k with
  | VipForm => "Ошибка отправки."
  | ContactForm => "Ошибка."
  end.

Definition connection_text (k : form_kind) : string :=
  match k with
  | VipForm => "Ошибка соединения."
  | ContactForm => "Ошибка соединения."
  end.

Record response := Response { ok : bool }.

(** How the promise returned by [fetch] settles. *)
Inductive outcome := Fulfilled (res : response) | Rejected.

Definition await (o : outcome) : M response :=
  match o with
  | Fulfilled res => mret res
  | Rejected => throw NetworkError
  end.

Definition fetch (u m : string) (fd : list (string * string))
    (k : form_kind) (f : ref) (st : option ref) : M unit :=
  update (set_inflight (λ l, l ++ [Request u m fd k f st])).

Definition set_status (st : option ref) (s : string) : M unit :=
  p ← deref st; update (set_document (alter_node (set_textContent s) p)).

Definition form_reset (f : ref) : M unit :=
  update (set_document (alter_node reset f)).

(** The submit handler up to its [await]. *)
Definition submit_handler (k : form_kind) (f : ref) (st : option ref) : M unit :=
  preventDefault;;
  fd ← read (λ b, from_option FormData [] (get_node (document b) f));
  fetch endpoint "POST" fd k f st.

(** The rest of the handler, run when the request settles. *)
Definition submit_settled (k : form_kind) (f : ref) (st : option ref)
    (o : outcome) : M unit :=
  try_catch
    (res ← await o;
     set_status st (if ok res then success_text k else failure_text k))
    (set_status st (connection_text k));;
  form_reset f.

(** ** The FAQ accordion (lines 47-59) *)

Definition toggle_faq (answer arrow : option ref) : M unit :=
  a ← deref answer; classList_toggle a "show";;
  r ← deref arrow; classList_toggle r "rotate".

Definition attach_faq (item : ref) : M unit :=
  question ← read (λ b, querySelector "faq-question" (document b) item);
  answer ← read (λ b, querySelector "faq-answer" (document b) item);
  arrow ← read (λ b, querySelector "arrow" (document b) item);
  q ← deref question;
  addEventListener (Element q) click (ToggleFaq answer arrow).

Fixpoint forEach {A} (f : A → M unit) (l : list A) : M unit :=
  match l with
  | [] => mret ()
  | x :: l' => f x;; forEach f l'
  end.

(** ** The page-ready listener (lines 1-45) and the script *)

Definition when {A} (o : option A) (f : A → M unit) : M unit :=
  match o with
  | Some a => f a
  | None => mret ()
  end.

Definition on_ready : M unit :=
  popup ← byId "characterPopup";
  closeBtn ← byId "closeBtn";
  downloadBtn ← byId "downloadBtn";
  when popup (λ p, setTimeout (ShowPopup p) 1000);;
  when closeBtn (λ c, addEventListener (Element c) click (HidePopup popup));;
  when downloadBtn (λ d, addEventListener (Element d) click OpenDownload);;
  vipForm ← byId "vip-form";
  when vipForm (λ f,
    st ← byId "status";
    addEventListener (Element f) submit (SubmitForm VipForm f st));;
  contactForm ← byId "contactForm";
  when contactForm (λ f,
    st ← byId "contactStatus";
    addEventListener (Element f) submit (SubmitForm ContactForm f st)).

Definition main : M unit :=
  addEventListener Document DOMContentLoaded OnReady;;
  faqItems ← read (λ b, querySelectorAll "faq-item" (document b));
  forEach attach_faq faqItems.

(** Calling a function the script registered. *)
Definition call (c : closure) : M unit :=
  match c with
  | OnReady => on_ready
  | ShowPopup p => show_popup p
  | HidePopup p => hide_popup p
  | OpenDownload => open_download
  | SubmitForm k f st => submit_handler k f st
  | ToggleFaq answer arrow => toggle_faq answer arrow
  end.

(** ** The event loop *)

(** Each function runs to completion; what one throws is reported and
    does not stop the next. *)
Definition run_all (cs : list closure) (b : browser) : browser :=
  foldl (λ b c, (call c b).1) b cs.

Definition listening (t : target) (e : event_name) (b : browser) : list closure :=
  omap (λ l, if decide (l.1 = (t, e)) then Some l.2 else None) (listeners b).

(** The element at [p] and its ancestors, innermost first. *)
Definition self_and_ancestors (p : ref) : list ref :=
  (λ n, take n p) <$> reverse (seq 0 (S (length p))).

(** Where an event goes: the three events of the script bubble, from the
    target through its ancestors to the document.  The script registers
    no capturing listener and none stops the propagation. *)
Definition event_path (t : target) : list target :=
  match t with
  | Document => [Document]
  | Element p => (Element <$> self_and_ancestors p) ++ [Document]
  end.

(** An event [e] is fired at [t]: at each node of its path the listeners
    registered there for [e] run.  What the browser itself does for the
    event afterwards (its default action) is not part of this. *)
Definition dispatch (t : target) (e : event_name) (b : browser) : browser :=
  foldl (λ b tg, run_all (listening tg e b) b) b (event_path t).

(** [d] milliseconds pass: the timers due by then fire.  The script
    sets one timer, so the order among several is left as registered. *)
Definition elapse (d : nat) (b : browser) : browser :=
  let now := clock b + d in
  let due := filter (λ tc, tc.1 ≤ now) (timers b) in
  let later := filter (λ tc, ¬ tc.1 ≤ now) (timers b) in
  run_all (due.*2) (set_timers (λ _, later) (set_clock now b)).

(** The [i]-th request in flight settles and its handler resumes. *)
Definition settle (i : nat) (o : outcome) (b : browser) : browser :=
  match inflight b !! i with
  | Some r =>
      (submit_settled (kind r) (form r) (status r) o
         (set_inflight (delete i) b)).1
  | None => b
  end.

(** The page [t] is loaded, the script runs, the document becomes ready. *)
Definition load (t : node) : browser := Browser t [] [] 0 [] [].

Definition boot (t : node) : browser :=
  dispatch Document DOMContentLoaded (main (load t)).1.

(** ** Notions used in the statements *)

(** A form that has just been reset shows each control at its default. *)
Definition at_default (c : control) : Prop := value c = defaultValue c.

#[global] Instance at_default_dec c : Decision (at_default c).
Proof. unfold at_default. apply _. Defined.

(** The text the handler writes for each way the request can settle. *)
Definition status_text (k : form_kind) (o : outcome) : string :=
  match o with
  | Fulfilled res => if ok res then success_text k else failure_text k
  | Rejected => connection_text k
  end.

(** Whether the request completed with a success response. *)
Definition succeeded (o : outcome) : bool :=
  match o with
  | Fulfilled res => ok res
  | Rejected => false
  end.

(** What "the fields are empty" asks of a control. *)
Definition blank (c : control) : Prop := value c = "".

#[global] Instance blank_dec c : Decision (blank c).
Proof. unfold blank. apply _. Defined.

(** ** Sample pages *)

Definition el (i : option string) (cls : list string) (kids : list node) : node :=
  Elem {| id := i; classList := cls; field := None |} kids.

(** A control whose markup gives the default [dv] and which now holds [v]. *)
Definition input (nm v dv : string) : node :=
  Elem {| id := None; classList := []; field := Some (Control nm v dv) |} [].

Definition faq_entry (q a : string) : node :=
  el None ["faq-item"]
    [ el None ["faq-question"] [Text q; el None ["arrow"] []];
      el None ["faq-answer"] [Text a] ].

(** A page with every element the script looks for.  The visitor has
    typed into both forms; one field of each form has a default value
    in the markup. *)
Definition landing_page : node :=
  el None []
    [ el (Some "characterPopup") ["popup"]
        [ el (Some "closeBtn") [] [Text "x"];
          el (Some "downloadBtn") [] [Text "Download"] ];
      el (Some "vip-form") []
        [ input "email" "a@b.c" "";
          input "plan" "gold" "basic";
          el (Some "status") [] [] ];
      el (Some "contactForm") []
        [ input "name" "Ann" "";
          input "topic" "billing" "general";
          el (Some "contactStatus") [] [Text "..."] ];
      faq_entry "Q1" "A1";
      faq_entry "Q2" "A2" ].

(** The VIP form without its status element. *)
Definition no_status_page : node :=
  el None []
    [ el (Some "vip-form") [] [ input "email" "a@b.c" "" ] ].


(** Three FAQ entries; the second has no question element. *)
Definition broken_faq_page : node :=
  el None []
    [ faq_entry "Q1" "A1";
      el None ["faq-item"] [ el None ["faq-answer"] [Text "A2"] ];
      faq_entry "Q3" "A3" ].

(** The listener [attach_faq] registers for an entry, if it gets that far. *)
Definition faq_listener (doc : node) (item : ref) : option (target * event_name * closure) :=
  q ← querySelector "faq-question" doc item;
  Some (Element q, click,
        ToggleFaq (querySelector "faq-answer" doc item) (querySelector "arrow" doc item)).

Definition add_listeners (ls : list (target * event_name * closure)) (b : browser) : browser :=
  set_listeners (λ l, l ++ ls) b.

(** What the page-ready listener registers on the page [t]. *)
Definition ready_listeners (t : node) : list (target * event_name * closure) :=
  let popup := getElementById "characterPopup" t in
  from_option (λ c, [(Element c, click, HidePopup popup)]) []
    (getElementById "closeBtn" t) ++
  from_option (λ d, [(Element d, click, OpenDownload)]) []
    (getElementById "downloadBtn" t) ++
  from_option (λ f, [(Element f, submit,
                      SubmitForm VipForm f (getElementById "status" t))]) []
    (getElementById "vip-form" t) ++
  from_option (λ f, [(Element f, submit,
                      SubmitForm ContactForm f (getElementById "contactStatus" t))]) []
    (getElementById "contactForm" t).

Definition ready_timers (now : nat) (t : node) : list (nat * closure) :=
  from_option (λ p, [(now + 1000, ShowPopup p)]) [] (getElementById "characterPopup" t).

(** A page whose popup is already shown by its markup. *)
Definition shown_popup_page : node :=
  el None []
    [ el (Some "characterPopup") ["popup"; "show"]
        [ el (Some "closeBtn") [] [Text "x"] ] ].

(** A page with the close button and no popup. *)
Definition no_popup_page : node :=
  el None [] [ el (Some "closeBtn") [] [Text "x"] ].

(** ** Notions used in the further statements *)

(** The ids the page-ready listener looks up for each form. *)
Definition form_id (k : form_kind) : string :=
  match k with
  | VipForm => "vip-form"
  | ContactForm => "contactForm"
  end.

Definition status_id (k : form_kind) : string :=
  match k with
  | VipForm => "status"
  | ContactForm => "contactStatus"
  end.

(** [n] runs in a row of a function the script registered. *)
Definition runs (n : nat) (c : closure) (b : browser) : browser :=
  Nat.iter n (λ b, (call c b).1) b.

(** The listeners of the FAQ loop: click handlers that toggle. *)
Definition is_faq_listener (l : target * event_name * closure) : Prop :=
  ∃ q answer arrow, l = (Element q, click, ToggleFaq answer arrow).
(** * Properties *)

(** Induction on a tree, with the hypothesis available for every child. *)
Lemma node_ind (P : node → Prop) :
  (∀ s, P (Text s)) →
  (∀ a kids, Forall P kids → P (Elem a kids)) →
  ∀ n, P n.
Proof.
  intros HT HE. fix IH 1. intros [s | a kids]; [apply HT | apply HE].
  induction kids as [| k kids IHk]; constructor; [apply IH | exact IHk].
Qed.

Lemma matches_Elem P a kids :
  matches P (Elem a kids) = (if P a then [[]] else []) ++ matches_from P 0 kids.
Proof.
  cbn [matches]. f_equal. generalize 0.
  induction kids as [| k kids IH]; intros i; [done |].
  cbn [matches_from]. by rewrite <- IH.
Qed.

(** ** The script on the sample page *)

Example landing_page_lookups :
  getElementById "characterPopup" landing_page = Some [0] ∧
  getElementById "closeBtn" landing_page = Some [0; 0] ∧
  getElementById "vip-form" landing_page = Some [1] ∧
  getElementById "status" landing_page = Some [1; 2] ∧
  getElementById "contactStatus" landing_page = Some [2; 2] ∧
  querySelectorAll "faq-item" landing_page = [[3]; [4]] ∧
  querySelector "faq-answer" landing_page [3] = Some [3; 1] ∧
  querySelector "arrow" landing_page [3] = Some [3; 0; 1].
Proof. by vm_compute. Qed.

Example landing_page_boot :
  listeners (boot landing_page) =
    [ (Document, DOMContentLoaded, OnReady);
      (Element [3; 0], click, ToggleFaq (Some [3; 1]) (Some [3; 0; 1]));
      (Element [4; 0], click, ToggleFaq (Some [4; 1]) (Some [4; 0; 1]));
      (Element [0; 0], click, HidePopup (Some [0]));
      (Element [0; 1], click, OpenDownload);
      (Element [1], submit, SubmitForm VipForm [1] (Some [1; 2]));
      (Element [2], submit, SubmitForm ContactForm [2] (Some [2; 2])) ] ∧
  timers (boot landing_page) = [(1000, ShowPopup [0])] ∧
  document (boot landing_page) = landing_page.
Proof. by vm_compute. Qed.

Example landing_page_submit :
  let b := dispatch (Element [1]) submit (boot landing_page) in
  inflight b =
    [Request endpoint "POST" [("email", "a@b.c"); ("plan", "gold")]
       VipForm [1] (Some [1; 2])] ∧
  effects b = [PreventDefault] ∧
  document b = landing_page.
Proof. by vm_compute. Qed.

Example landing_page_download :
  effects (dispatch (Element [0; 1]) click (boot landing_page)) =
    [WindowOpen "dist/aquabriz.exe"].
Proof. by vm_compute. Qed.

(** ** The tree under [alter_node] *)

Lemma get_node_alter g p t :
  get_node (alter_node g p t) p = g <$> get_node t p.
Proof.
  revert t. induction p as [| i p IH]; intros t; [done |].
  destruct t as [s | a kids]; [done |]. cbn [alter_node get_node].
  rewrite list_lookup_alter_eq. destruct (kids !! i) as [k |]; [apply IH | done].
Qed.

(** Changing the attributes of one element leaves the attributes of
    every other element, above, below or aside, as they were. *)
Lemma attrs_at_on_attrs f p t q :
  attrs_at (alter_node (on_attrs f) p t) q =
  if decide (p = q) then f <$> attrs_at t q else attrs_at t q.
Proof.
  unfold attrs_at. revert t q. induction p as [| i p IH]; intros t q.
  - destruct q as [| j q].
    + rewrite decide_True by done. by destruct t.
    + rewrite decide_False by done. by destruct t.
  - destruct t as [s | a kids].
    + case_decide; [subst q |]; [done |]. by destruct q.
    + destruct q as [| j q]; [by rewrite decide_False |].
      cbn [alter_node get_node]. rewrite list_lookup_alter.
      destruct (decide (i = j)) as [<- |].
      * destruct (kids !! i) as [k |]; cbn.
        -- rewrite IH. repeat case_decide; congruence.
        -- by case_decide.
      * rewrite decide_False by congruence. done.
Qed.

Lemma is_Some_attrs_at_on_attrs f p t q :
  is_Some (attrs_at (alter_node (on_attrs f) p t) q) ↔ is_Some (attrs_at t q).
Proof.
  rewrite attrs_at_on_attrs. case_decide; [| done]. by rewrite fmap_is_Some.
Qed.

(** ** Class lists *)

Section token_lists.
Import DOMTokenList.

Lemma contains_add c c' l :
  contains c' (add c l) = bool_decide (c = c') || contains c' l.
Proof.
  unfold add, contains. rewrite <- bool_decide_or.
  destruct (decide (c ∈ l)).
  - rewrite (bool_decide_true (c ∈ l)) by done.
    apply bool_decide_ext. naive_solver.
  - rewrite (bool_decide_false (c ∈ l)) by done.
    apply bool_decide_ext. set_solver.
Qed.

Lemma contains_remove c c' l :
  contains c' (remove c l) = negb (bool_decide (c = c')) && contains c' l.
Proof.
  unfold remove, contains. rewrite <- bool_decide_not, <- bool_decide_and.
  apply bool_decide_ext. rewrite list_elem_of_filter. naive_solver.
Qed.

Lemma contains_toggle c c' l :
  contains c' (toggle c l) = xorb (bool_decide (c = c')) (contains c' l).
Proof.
  unfold toggle. destruct (contains c l) eqn:Hc.
  - rewrite contains_remove.
    destruct (decide (c = c')) as [<- | Hne].
    + by rewrite bool_decide_true, Hc.
    + by rewrite bool_decide_false.
  - unfold contains in *. apply bool_decide_eq_false in Hc.
    destruct (decide (c = c')) as [<- | Hne].
    + rewrite (bool_decide_true (c = c)), (bool_decide_false (c ∈ l)) by done.
      apply bool_decide_eq_true. set_solver.
    + rewrite (bool_decide_false (c = c')) by done.
      apply bool_decide_ext. set_solver.
Qed.

End token_lists.

Section classes_at.
Import DOMTokenList.

Lemma has_class_with_classList f p t q c :
  has_class (alter_node (on_attrs (with_classList f)) p t) q c =
  match attrs_at t q with
  | Some a => contains c (if decide (p = q) then f (classList a) else classList a)
  | None => false
  end.
Proof.
  unfold has_class. rewrite attrs_at_on_attrs.
  case_decide; by destruct (attrs_at t q).
Qed.

(** Toggling [c] at [p] flips exactly one membership: that of [c] on
    the element at [p]. *)
Lemma has_class_toggle p c t q c' :
  has_class (alter_node (on_attrs (with_classList (toggle c))) p t) q c' =
  xorb (bool_decide (p = q ∧ c = c') && bool_decide (is_Some (attrs_at t q)))
       (has_class t q c').
Proof.
  rewrite has_class_with_classList. unfold has_class.
  destruct (attrs_at t q) as [a |]; [| by rewrite andb_false_r].
  rewrite (bool_decide_true (is_Some _)), andb_true_r by done.
  case_decide as Hpq.
  - rewrite contains_toggle. f_equal. apply bool_decide_ext. naive_solver.
  - rewrite bool_decide_false by naive_solver. done.
Qed.

Lemma has_class_add p c t :
  is_Some (attrs_at t p) →
  has_class (alter_node (on_attrs (with_classList (add c))) p t) p c = true.
Proof.
  intros [a Ha]. rewrite has_class_with_classList, Ha, decide_True by done.
  by rewrite contains_add, bool_decide_true.
Qed.

Lemma has_class_remove p c t q c' :
  has_class (alter_node (on_attrs (with_classList (remove c))) p t) q c' =
  negb (bool_decide (p = q ∧ c = c')) && has_class t q c'.
Proof.
  rewrite has_class_with_classList. unfold has_class.
  destruct (attrs_at t q) as [a |]; [| by rewrite andb_false_r].
  case_decide as Hpq.
  - rewrite contains_remove. do 2 f_equal. apply bool_decide_ext. naive_solver.
  - by rewrite bool_decide_false by naive_solver.
Qed.

End classes_at.

(** ** Selectors return elements of the tree *)

Lemma matches_from_sound P kids i0 p :
  Forall (λ k, ∀ q, q ∈ matches P k → ∃ a, attrs_at k q = Some a ∧ P a = true) kids →
  p ∈ matches_from P i0 kids →
  ∃ i q a, p = (i0 + i) :: q ∧ (kids !! i ≫= λ k, attrs_at k q) = Some a ∧ P a = true.
Proof.
  intros Hall. revert i0. induction Hall as [| k kids Hk _ IH]; intros i0 Hp.
  - by apply elem_of_nil in Hp.
  - cbn [matches_from] in Hp. apply elem_of_app in Hp as [Hp | Hp].
    + apply list_elem_of_fmap in Hp as (q & -> & Hq).
      destruct (Hk q Hq) as (a & Ha & HP).
      exists 0, q, a. by rewrite Nat.add_0_r.
    + destruct (IH _ Hp) as (i & q & a & -> & Ha & HP).
      exists (S i), q, a. split_and!; [f_equal; lia | done | done].
Qed.

Lemma matches_sound P n p :
  p ∈ matches P n → ∃ a, attrs_at n p = Some a ∧ P a = true.
Proof.
  revert p. induction n as [s | a kids IH] using node_ind; intros p Hp.
  - by apply elem_of_nil in Hp.
  - rewrite matches_Elem in Hp. apply elem_of_app in Hp as [Hp | Hp].
    + destruct (P a) eqn:HP; [| by apply elem_of_nil in Hp].
      apply list_elem_of_singleton in Hp as ->. by exists a.
    + destruct (matches_from_sound _ _ _ _ IH Hp) as (i & q & a' & -> & Ha & HP).
      exists a'. split; [| done]. unfold attrs_at in *.
      cbn [get_node]. rewrite Nat.add_0_l.
      by destruct (kids !! i).
Qed.

Lemma getElementById_elem i doc p :
  getElementById i doc = Some p → is_Some (attrs_at doc p).
Proof.
  unfold getElementById. intros Hp.
  destruct (matches_sound (id_is i) doc p) as (a & -> & _); [| done].
  destruct (matches _ doc); simplify_eq/=. left.
Qed.


(** ** Text and form controls *)

Lemma append_empty_r (s : string) : s +:+ "" = s.
Proof.
  induction s as [| c s IH]; [done |].
  change (String c (s +:+ "") = String c s). by rewrite IH.
Qed.

Lemma textContent_set s a kids :
  textContent (set_textContent s (Elem a kids)) = s.
Proof.
  cbn. case_decide as Hs; cbn; [done |]. apply append_empty_r.
Qed.

Lemma textContent_at_set s p t :
  is_Some (attrs_at t p) →
  textContent_at (alter_node (set_textContent s) p t) p = Some s.
Proof.
  unfold attrs_at, textContent_at. rewrite get_node_alter. intros [a Ha].
  destruct (get_node t p) as [[s' | a' kids] |]; [done | | done].
  cbn [fmap option_fmap option_map]. f_equal. apply textContent_set.
Qed.

Lemma textContent_kids_alter g i kids :
  Forall (λ k, textContent (g k) = textContent k) kids →
  foldr (λ k acc, textContent k +:+ acc) "" (alter g i kids) =
  foldr (λ k acc, textContent k +:+ acc) "" kids.
Proof.
  intros Hall. revert i. induction Hall as [| k kids Hk _ IH]; intros i; [done |].
  destruct i as [| i]; cbn; [by rewrite Hk | by rewrite IH].
Qed.

(** [reset] touches no text node. *)
Lemma textContent_reset n : textContent (reset n) = textContent n.
Proof.
  induction n as [s | a kids IH] using node_ind; [done |]. cbn.
  induction IH as [| k kids Hk _ IHkids]; [done |]. cbn. by rewrite Hk, IHkids.
Qed.

Lemma textContent_alter_reset f t :
  textContent (alter_node reset f t) = textContent t.
Proof.
  revert t. induction f as [| i f IH]; intros t; [apply textContent_reset |].
  destruct t as [s | a kids]; [done |]. cbn.
  apply textContent_kids_alter, Forall_forall. auto.
Qed.

Lemma textContent_at_alter_reset f t p :
  textContent_at (alter_node reset f t) p = textContent_at t p.
Proof.
  unfold textContent_at. revert f t. induction p as [| i p IH]; intros f t.
  - cbn. f_equal. apply textContent_alter_reset.
  - destruct f as [| j f].
    + destruct t as [s | a kids]; [done |]. cbn.
      rewrite list_lookup_fmap. destruct (kids !! i) as [k |]; [| done].
      apply (IH [] k).
    + destruct t as [s | a kids]; [done |]. cbn [alter_node get_node].
      rewrite list_lookup_alter. case_decide as Hij; [subst j |]; [| done].
      destruct (kids !! i) as [k |]; [| done]. apply (IH f k).
Qed.

Lemma elements_reset n : elements (reset n) = reset_control <$> elements n.
Proof.
  induction n as [s | a kids IH] using node_ind; [done |]. cbn.
  rewrite fmap_app, fmap_option_list. f_equal.
  induction IH as [| k kids Hk _ IHkids]; [done |]. cbn.
  by rewrite fmap_app, Hk, IHkids.
Qed.

Lemma elements_at_reset f t :
  elements_at (alter_node reset f t) f = reset_control <$> elements_at t f.
Proof.
  unfold elements_at. rewrite get_node_alter.
  destruct (get_node t f) as [n |]; [apply elements_reset | done].
Qed.

Lemma at_default_reset f t :
  Forall at_default (elements_at (alter_node reset f t) f).
Proof.
  rewrite elements_at_reset. apply Forall_fmap, Forall_true. by intros c.
Qed.

Lemma elements_kids_alter h i kids :
  (∀ k, kids !! i = Some k → elements (h k) = elements k) →
  concat (map elements (alter h i kids)) = concat (map elements kids).
Proof.
  revert i. induction kids as [| k kids IH]; intros i Hh; [done |].
  destruct i as [| i]; cbn.
  - by rewrite Hh.
  - rewrite IH; [done |]. intros k' Hk'. by apply Hh.
Qed.

Lemma elements_alter g p n :
  (∀ m, get_node n p = Some m → elements (g m) = elements m) →
  elements (alter_node g p n) = elements n.
Proof.
  revert n. induction p as [| i p IH]; intros n Hg; [by apply Hg |].
  destruct n as [s | a kids]; [done |]. cbn. f_equal.
  apply elements_kids_alter. intros k Hk. apply IH.
  intros m Hm. apply Hg. cbn. by rewrite Hk.
Qed.

(** A change at [p] that keeps the controls found at [p] keeps those of
    every element that is not at or below [p]. *)
Lemma elements_at_alter g p t q :
  ¬ p `prefix_of` q →
  (∀ m, get_node t p = Some m → elements (g m) = elements m) →
  elements_at (alter_node g p t) q = elements_at t q.
Proof.
  unfold elements_at. revert p t. induction q as [| j q IH]; intros p t Hpq Hg.
  - cbn. by apply elements_alter.
  - destruct p as [| i p]; [destruct Hpq; apply prefix_nil |].
    destruct t as [s | a kids]; [done |]. cbn [alter_node get_node].
    rewrite list_lookup_alter. case_decide as Hij; [subst j |]; [| done].
    destruct (kids !! i) as [k |] eqn:Hk; [| done]. cbn. apply IH.
    + intros Hp. apply Hpq. by apply prefix_cons.
    + intros m Hm. apply Hg. cbn. by rewrite Hk.
Qed.

Lemma elements_set_textContent s n :
  elements n = [] → elements (set_textContent s n) = [].
Proof.
  destruct n as [s' | a kids]; [done |]. cbn. intros Hn.
  apply app_eq_nil in Hn as [-> _]. by case_decide.
Qed.

(** ** The submit handlers *)

(** With a status element to write to, the handler runs to its end:
    the text is written, then the form is reset. *)
Lemma submit_settled_Some k f s o b :
  submit_settled k f (Some s) o b =
  (set_document (alter_node reset f)
     (set_document (alter_node (set_textContent (status_text k o)) s) b),
   Normal ()).
Proof. by destruct o as [[[]] |]. Qed.

(** Without one the assignment in [try] throws, the one in [catch] throws
    again, and [reset()] is not reached. *)
Lemma submit_settled_None k f o b :
  submit_settled k f None o b = (b, Throw TypeError).
Proof. by destruct o as [[[]] |]. Qed.

Lemma submit_settled_text k f s o b :
  is_Some (attrs_at (document b) s) →
  textContent_at (document (submit_settled k f (Some s) o b).1) s =
  Some (status_text k o).
Proof.
  intros Hs. rewrite submit_settled_Some. cbn.
  rewrite textContent_at_alter_reset. by apply textContent_at_set.
Qed.

Lemma submit_settled_reset k f s o b :
  Forall at_default (elements_at (document (submit_settled k f (Some s) o b).1) f).
Proof. rewrite submit_settled_Some. apply at_default_reset. Qed.

(** When the status element is neither the form nor around it and holds
    no control, the fields after the handler are the fields before it,
    each with its value replaced by its default. *)
Lemma submit_settled_fields k f s o b :
  ¬ s `prefix_of` f →
  elements_at (document b) s = [] →
  elements_at (document (submit_settled k f (Some s) o b).1) f =
  reset_control <$> elements_at (document b) f.
Proof.
  intros Hsf Hs. rewrite submit_settled_Some. cbn.
  rewrite elements_at_reset. f_equal. apply elements_at_alter; [done |].
  intros m Hm. unfold elements_at in Hs. rewrite Hm in Hs.
  by rewrite Hs, elements_set_textContent.
Qed.

(** A request that settles resumes the handler that sent it. *)
Lemma settle_run i o b r :
  inflight b !! i = Some r →
  settle i o b =
  (submit_settled (kind r) (form r) (status r) o (set_inflight (delete i) b)).1.
Proof. unfold settle. by intros ->. Qed.

(** The handler up to its [await]: the default action is cancelled and
    one POST with the current field values is in flight. *)
Lemma submit_handler_sends k f st b :
  call (SubmitForm k f st) b =
  (set_inflight
     (λ l, l ++ [Request endpoint "POST"
                   (from_option FormData [] (get_node (document b) f)) k f st])
     (set_effects (λ l, l ++ [PreventDefault]) b),
   Normal ()).
Proof. reflexivity. Qed.

(** C1, as amended.  When the request of either form is answered with a
    success response and the form's status element exists, the handler
    completes, the status element shows the success text, and the form is
    reset: every field holds the default value of its markup (so a field
    is empty afterwards exactly when its default is empty). *)
Theorem submit_success_resets k f s res b :
  is_Some (attrs_at (document b) s) →
  ok res = true →
  let r := submit_settled k f (Some s) (Fulfilled res) b in
  r.2 = Normal () ∧
  textContent_at (document r.1) s = Some (success_text k) ∧
  Forall at_default (elements_at (document r.1) f).
Proof.
  intros Hs Hok. split_and!.
  - by rewrite submit_settled_Some.
  - rewrite submit_settled_text by done. cbn. by rewrite Hok.
  - apply submit_settled_reset.
Qed.

Lemma submit_success_resets_witness :
  let b := dispatch (Element [1]) submit (boot landing_page) in
  let r := submit_settled VipForm [1] (Some [1; 2]) (Fulfilled (Response true)) b in
  r.2 = Normal () ∧
  textContent_at (document r.1) [1; 2] = Some (success_text VipForm) ∧
  Forall at_default (elements_at (document r.1) [1]).
Proof.
  apply (submit_success_resets VipForm [1] [1; 2] (Response true)).
  - vm_compute. eauto.
  - reflexivity.
Defined.

(** C1 as stated fails: on [landing_page] the VIP form is submitted,
    the request succeeds, the success text is shown, and the field
    [plan] holds its default "basic" rather than nothing. *)
Lemma vip_success_fields_not_empty :
  let b := settle 0 (Fulfilled (Response true))
             (dispatch (Element [1]) submit (boot landing_page)) in
  textContent_at (document b) [1; 2] = Some (success_text VipForm) ∧
  elements_at (document b) [1] =
    [Control "email" "" ""; Control "plan" "basic" "basic"] ∧
  ¬ Forall blank (elements_at (document b) [1]).
Proof.
  split_and!; [by vm_compute | by vm_compute |].
  intros H. vm_compute in H.
  apply Forall_cons in H as [_ H]. apply Forall_cons in H as [H _]. discriminate H.
Qed.

(** C2, as amended.  When the request of either form throws and the
    form's status element exists, the handler completes, the status
    element shows the connection-error text, and the form is reset:
    every field holds the default value of its markup. *)
Theorem submit_rejected_resets k f s b :
  is_Some (attrs_at (document b) s) →
  let r := submit_settled k f (Some s) Rejected b in
  r.2 = Normal () ∧
  textContent_at (document r.1) s = Some (connection_text k) ∧
  Forall at_default (elements_at (document r.1) f).
Proof.
  intros Hs. split_and!.
  - by rewrite submit_settled_Some.
  - by rewrite submit_settled_text.
  - apply submit_settled_reset.
Qed.

Lemma submit_rejected_resets_witness :
  let b := dispatch (Element [2]) submit (boot landing_page) in
  let r := submit_settled ContactForm [2] (Some [2; 2]) Rejected b in
  r.2 = Normal () ∧
  textContent_at (document r.1) [2; 2] = Some (connection_text ContactForm) ∧
  Forall at_default (elements_at (document r.1) [2]).
Proof.
  apply (submit_rejected_resets ContactForm [2] [2; 2]).
  vm_compute. eauto.
Defined.

(** C2 as stated fails: on [landing_page] the contact form is submitted,
    the request throws, the connection-error text is shown, and the field
    [topic] holds its default "general" rather than nothing. *)
Lemma contact_rejected_fields_not_empty :
  let b := settle 0 Rejected
             (dispatch (Element [2]) submit (boot landing_page)) in
  textContent_at (document b) [2; 2] = Some (connection_text ContactForm) ∧
  elements_at (document b) [2] =
    [Control "name" "" ""; Control "topic" "general" "general"] ∧
  ¬ Forall blank (elements_at (document b) [2]).
Proof.
  split_and!; [by vm_compute | by vm_compute |].
  intros H. vm_compute in H.
  apply Forall_cons in H as [_ H]. apply Forall_cons in H as [H _]. discriminate H.
Qed.

(** C3, as amended.  Whenever the handler holds a status element, it
    completes and resets the form for every outcome of the request,
    success response, non-success response or thrown error alike: the
    fields are those the form had when [reset()] was reached, each back
    at its default value. *)
Theorem submit_resets_for_every_outcome k f s o b :
  let r := submit_settled k f (Some s) o b in
  let written := alter_node (set_textContent (status_text k o)) s (document b) in
  r.2 = Normal () ∧
  elements_at (document r.1) f = reset_control <$> elements_at written f ∧
  Forall at_default (elements_at (document r.1) f).
Proof.
  split_and!.
  - by rewrite submit_settled_Some.
  - rewrite submit_settled_Some. apply elements_at_reset.
  - apply submit_settled_reset.
Qed.

(** C3 as stated fails twice.  On [no_status_page] the handler throws
    on every outcome before it reaches [reset()], and the typed value
    stays in the field.  On [landing_page] the form is reset after a
    non-success response and the field [plan] holds "basic". *)
Lemma reset_not_unconditional_nor_clearing :
  (let b := dispatch (Element [0]) submit (boot no_status_page) in
   Forall (λ o, (submit_settled VipForm [0] None o b).2 = Throw TypeError ∧
                elements_at (document (settle 0 o b)) [0] =
                  [Control "email" "a@b.c" ""])
     [Fulfilled (Response true); Fulfilled (Response false); Rejected]) ∧
  (let b := settle 0 (Fulfilled (Response false))
              (dispatch (Element [1]) submit (boot landing_page)) in
   elements_at (document b) [1] =
     [Control "email" "" ""; Control "plan" "basic" "basic"] ∧
   ¬ Forall blank (elements_at (document b) [1])).
Proof.
  split; [by repeat constructor |].
  split; [by vm_compute |].
  intros H. vm_compute in H.
  apply Forall_cons in H as [_ H]. apply Forall_cons in H as [H _]. discriminate H.
Qed.

(** C4.  Per form submission the status text tells two outcomes apart:
    the success text is shown exactly if the request completed with a
    success response.  A non-success response and a thrown error both
    fall on the other side; there the text is the generic error text in
    the first case and a distinct one, the connection-error text, in the
    second. *)
Theorem two_outcome_groups k f s b :
  is_Some (attrs_at (document b) s) →
  let shown o := textContent_at (document (submit_settled k f (Some s) o b).1) s in
  (∀ o, shown o = Some (success_text k) ↔ succeeded o = true) ∧
  (∀ res, ok res = false → shown (Fulfilled res) = Some (failure_text k)) ∧
  shown Rejected = Some (connection_text k) ∧
  failure_text k ≠ connection_text k.
Proof.
  intros Hs shown. unfold shown. split_and!.
  - intros o. rewrite submit_settled_text by done.
    destruct o as [[[]] |], k; cbn; split; intros H; by simplify_eq.
  - intros res Hres. rewrite submit_settled_text by done. cbn. by rewrite Hres.
  - by rewrite submit_settled_text.
  - by destruct k.
Qed.

Lemma two_outcome_groups_witness :
  let b := boot landing_page in
  let shown o :=
    textContent_at (document (submit_settled VipForm [1] (Some [1; 2]) o b).1) [1; 2] in
  (∀ o, shown o = Some (success_text VipForm) ↔ succeeded o = true) ∧
  (∀ res, ok res = false → shown (Fulfilled res) = Some (failure_text VipForm)) ∧
  shown Rejected = Some (connection_text VipForm) ∧
  failure_text VipForm ≠ connection_text VipForm.
Proof.
  apply (two_outcome_groups VipForm [1] [1; 2]).
  vm_compute. eauto.
Defined.

(** ** The FAQ accordion *)

Lemma is_elem_on_attrs f p t q :
  bool_decide (is_Some (attrs_at (alter_node (on_attrs f) p t) q)) =
  bool_decide (is_Some (attrs_at t q)).
Proof. apply bool_decide_ext, is_Some_attrs_at_on_attrs. Qed.

Lemma toggle_faq_document a r b :
  document (call (ToggleFaq (Some a) (Some r)) b).1 =
  alter_node (on_attrs (with_classList (DOMTokenList.toggle "rotate"))) r
    (alter_node (on_attrs (with_classList (DOMTokenList.toggle "show"))) a
       (document b)).
Proof. reflexivity. Qed.

Lemma toggle_faq_document_no_arrow a b :
  document (call (ToggleFaq (Some a) None) b).1 =
  alter_node (on_attrs (with_classList (DOMTokenList.toggle "show"))) a (document b).
Proof. reflexivity. Qed.

Lemma toggle_faq_no_answer arrow b :
  call (ToggleFaq None arrow) b = (b, Throw TypeError).
Proof. reflexivity. Qed.

#[local] Ltac case_bool_decides :=
  repeat match goal with
         | |- context [bool_decide ?P] => destruct (bool_decide P)
         end.

(** C5.  Two runs in a row of the click handler of an FAQ entry leave
    every class membership of every element as it was before: the
    answer carries "show", and the indicator "rotate", exactly if it
    did at the start.  This holds for every starting state, also when
    the entry lacks its answer or its indicator and the handler throws. *)
Theorem faq_two_clicks_restore answer arrow b q c :
  let handler := call (ToggleFaq answer arrow) in
  has_class (document (handler (handler b).1).1) q c = has_class (document b) q c.
Proof.
  intros handler. subst handler.
  destruct answer as [a |]; [| by rewrite !toggle_faq_no_answer].
  destruct arrow as [r |].
  - rewrite !toggle_faq_document, !has_class_toggle, !is_elem_on_attrs.
    case_bool_decides; by destruct (has_class (document b) q c).
  - rewrite !toggle_faq_document_no_arrow, !has_class_toggle, !is_elem_on_attrs.
    case_bool_decides; by destruct (has_class (document b) q c).
Qed.

(** What one run of the handler does to the two memberships it is about. *)
Lemma faq_click_toggles a r b :
  is_Some (attrs_at (document b) a) → is_Some (attrs_at (document b) r) →
  let b' := (call (ToggleFaq (Some a) (Some r)) b).1 in
  has_class (document b') a "show" = negb (has_class (document b) a "show") ∧
  has_class (document b') r "rotate" = negb (has_class (document b) r "rotate").
Proof.
  intros Ha Hr b'. subst b'.
  rewrite toggle_faq_document, !has_class_toggle, !is_elem_on_attrs.
  rewrite !(bool_decide_true (is_Some _)) by done.
  rewrite (bool_decide_false (r = a ∧ "rotate" = "show")) by (by intros [_ ?]).
  rewrite (bool_decide_false (a = r ∧ "show" = "rotate")) by (by intros [_ ?]).
  by rewrite !bool_decide_true by done.
Qed.





(** ** Attaching the FAQ handlers *)

Lemma add_listeners_app ls1 ls2 b :
  add_listeners ls2 (add_listeners ls1 b) = add_listeners (ls1 ++ ls2) b.
Proof. destruct b. unfold add_listeners, set_listeners. cbn. by rewrite app_assoc. Qed.

Lemma add_listeners_nil b : add_listeners [] b = b.
Proof. destruct b. unfold add_listeners, set_listeners. cbn. by rewrite app_nil_r. Qed.

Lemma attach_faq_run item b :
  attach_faq item b =
  match faq_listener (document b) item with
  | Some l => (add_listeners [l] b, Normal ())
  | None => (b, Throw TypeError)
  end.
Proof.
  unfold attach_faq, faq_listener, read, mbind, M_bind.
  by destruct (querySelector "faq-question" (document b) item).
Qed.

Lemma faq_listener_is_Some doc item :
  is_Some (faq_listener doc item) ↔ is_Some (querySelector "faq-question" doc item).
Proof.
  unfold faq_listener. destruct (querySelector "faq-question" doc item); cbn.
  - split; eauto.
  - split; intros [? ?]; discriminate.
Qed.

Lemma faq_listener_click doc item l :
  faq_listener doc item = Some l → l.1.2 = click.
Proof.
  unfold faq_listener. destruct (querySelector "faq-question" doc item); [| done].
  by intros [= <-].
Qed.

Lemma forEach_cons {A} (f : A → M unit) x l b :
  forEach f (x :: l) b =
  match f x b with
  | (b', Normal _) => forEach f l b'
  | (b', Throw e) => (b', Throw e)
  end.
Proof. reflexivity. Qed.

(** The loop attaches the entries that have a question, one after the
    other. *)
Lemma forEach_attach pre rest b :
  Forall (λ i, is_Some (querySelector "faq-question" (document b) i)) pre →
  forEach attach_faq (pre ++ rest) b =
  forEach attach_faq rest (add_listeners (omap (faq_listener (document b)) pre) b).
Proof.
  intros Hpre. revert b Hpre.
  induction pre as [| i pre IH]; intros b Hpre; [by rewrite add_listeners_nil |].
  apply Forall_cons in Hpre as [Hi Hpre].
  apply faq_listener_is_Some in Hi as [l Hl].
  cbn [app omap list_omap]. rewrite Hl, forEach_cons, attach_faq_run, Hl.
  rewrite (IH (add_listeners [l] b)) by done.
  by rewrite add_listeners_app.
Qed.

Lemma forEach_attach_all items b :
  Forall (λ i, is_Some (querySelector "faq-question" (document b) i)) items →
  forEach attach_faq items b =
  (add_listeners (omap (faq_listener (document b)) items) b, Normal ()).
Proof.
  intros Hall. rewrite <- (app_nil_r items) at 1. by rewrite forEach_attach.
Qed.

(** It stops at the first entry that has none. *)
Lemma forEach_attach_stop bad post b :
  querySelector "faq-question" (document b) bad = None →
  forEach attach_faq (bad :: post) b = (b, Throw TypeError).
Proof.
  intros Hbad. rewrite forEach_cons, attach_faq_run.
  unfold faq_listener. by rewrite Hbad.
Qed.

Lemma length_omap_faq_listener doc pre :
  Forall (λ i, is_Some (querySelector "faq-question" doc i)) pre →
  length (omap (faq_listener doc) pre) = length pre.
Proof.
  induction 1 as [| i pre Hi _ IH]; [done |].
  apply faq_listener_is_Some in Hi as [l Hl]. cbn. rewrite Hl. cbn. by rewrite IH.
Qed.

Lemma main_run t :
  main (load t) =
  forEach attach_faq (querySelectorAll "faq-item" t)
    (add_listeners [(Document, DOMContentLoaded, OnReady)] (load t)).
Proof. reflexivity. Qed.

(** C10.  When the entries matched by ".faq-item" are [pre], then [bad],
    then [post], the entries of [pre] have a question element and [bad]
    has none, the attachment loop throws a TypeError at [bad]: the click
    handlers of [pre] are attached, and none for [bad] or for any entry
    of [post].  So the loop completes only if every entry has a question
    element. *)
Theorem faq_attach_stops_at_missing_question t pre bad post :
  querySelectorAll "faq-item" t = pre ++ bad :: post →
  Forall (λ i, is_Some (querySelector "faq-question" t i)) pre →
  querySelector "faq-question" t bad = None →
  let r := main (load t) in
  r.2 = Throw TypeError ∧
  listeners r.1 = (Document, DOMContentLoaded, OnReady) :: omap (faq_listener t) pre ∧
  length (listeners r.1) = S (length pre).
Proof.
  intros Hitems Hpre Hbad r. subst r.
  rewrite main_run, Hitems, forEach_attach by done.
  rewrite forEach_attach_stop by done. cbn.
  split_and!; [done | done |]. by rewrite length_omap_faq_listener.
Qed.

Lemma faq_attach_stops_at_missing_question_witness :
  let r := main (load broken_faq_page) in
  r.2 = Throw TypeError ∧
  listeners r.1 =
    (Document, DOMContentLoaded, OnReady) :: omap (faq_listener broken_faq_page) [[0]] ∧
  length (listeners r.1) = 2.
Proof.
  apply (faq_attach_stops_at_missing_question broken_faq_page [[0]] [1] [[2]]).
  - reflexivity.
  - repeat constructor. vm_compute. eauto.
  - reflexivity.
Defined.

(** Conversely the loop completes when no entry lacks its question. *)
Lemma faq_attach_completes t :
  Forall (λ i, is_Some (querySelector "faq-question" t i)) (querySelectorAll "faq-item" t) →
  (main (load t)).2 = Normal () ∧
  listeners (main (load t)).1 =
    (Document, DOMContentLoaded, OnReady) ::
    omap (faq_listener t) (querySelectorAll "faq-item" t).
Proof.
  intros Hall. by rewrite main_run, forEach_attach_all.
Qed.

(** ** Page ready *)

(** Whatever the FAQ loop attached listens for clicks on elements. *)
Lemma forEach_attach_shape items b :
  ∃ ls, (forEach attach_faq items b).1 = add_listeners ls b ∧
        Forall (λ l, l.1.2 = click) ls.
Proof.
  revert b. induction items as [| i items IH]; intros b.
  - exists []. by rewrite add_listeners_nil.
  - rewrite forEach_cons, attach_faq_run.
    destruct (faq_listener (document b) i) as [l |] eqn:Hl.
    + destruct (IH (add_listeners [l] b)) as (ls & -> & Hls).
      exists (l :: ls). rewrite add_listeners_app. split; [done |].
      constructor; [by eapply faq_listener_click | done].
    + exists []. by rewrite add_listeners_nil.
Qed.

Lemma omap_ready_click (ls : list (target * event_name * closure)) :
  Forall (λ l, l.1.2 = click) ls →
  omap (λ l, if decide (l.1 = (Document, DOMContentLoaded)) then Some l.2 else None) ls = [].
Proof.
  induction 1 as [| [[t e] c] ls He _ IH]; [done |]. cbn in *. subst e.
  rewrite decide_False by (by intros [= _]). exact IH.
Qed.

Lemma on_ready_run b :
  on_ready b =
  (Browser (document b) (listeners b ++ ready_listeners (document b))
     (timers b ++ ready_timers (clock b) (document b))
     (clock b) (inflight b) (effects b),
   Normal ()).
Proof.
  destruct b as [doc ls ts now fl fx].
  unfold on_ready, ready_listeners, ready_timers, byId, read, when, mbind, M_bind.
  cbn -[getElementById].
  destruct (getElementById "characterPopup" doc) eqn:Hpopup,
    (getElementById "closeBtn" doc) eqn:Hclose,
    (getElementById "downloadBtn" doc) eqn:Hdownload,
    (getElementById "vip-form" doc) eqn:Hvip,
    (getElementById "contactForm" doc) eqn:Hcontact;
    cbn -[getElementById]; rewrite ?Hvip; cbn -[getElementById];
    rewrite ?Hcontact;
    unfold addEventListener, update, set_listeners, set_timers, mret, M_ret;
    cbn -[getElementById];
    by rewrite ?app_nil_r, <- ?app_assoc.
Qed.

(** The state once the script has run and the document is ready: the
    document is untouched, the listeners are those of the FAQ loop and of
    the page-ready listener, and the popup timer, if any, is pending. *)
Lemma boot_run t :
  ∃ ls, Forall (λ l, l.1.2 = click) ls ∧
        listeners (main (load t)).1 = (Document, DOMContentLoaded, OnReady) :: ls ∧
        boot t =
        Browser t ((Document, DOMContentLoaded, OnReady) :: ls ++ ready_listeners t)
          (ready_timers 0 t) 0 [] [].
Proof.
  unfold boot. rewrite main_run.
  destruct (forEach_attach_shape (querySelectorAll "faq-item" t)
              (add_listeners [(Document, DOMContentLoaded, OnReady)] (load t)))
    as (ls & -> & Hls).
  exists ls. split_and!; [done | done |].
  unfold dispatch, listening. cbn [event_path foldl].
  cbn [add_listeners set_listeners load listeners app].
  cbn [omap list_omap fst snd]. rewrite decide_True by done.
  rewrite omap_ready_click by done.
  cbn [run_all foldl call]. by rewrite on_ready_run.
Qed.

Lemma boot_document t : document (boot t) = t.
Proof. destruct (boot_run t) as (ls & _ & _ & ->). done. Qed.

Lemma boot_listeners t l : l ∈ ready_listeners t → l ∈ listeners (boot t).
Proof.
  destruct (boot_run t) as (ls & _ & _ & ->). cbn. set_solver.
Qed.

(** ** The popup *)

(** C6, as amended.  If the popup element exists, then at any time
    before the 1000 ms have passed the script has not touched it (it
    carries "show" only if its markup does), and once they have passed
    it carries "show". *)
Theorem popup_shown_after_delay t p :
  getElementById "characterPopup" t = Some p →
  (∀ d, d < 1000 →
        has_class (document (elapse d (boot t))) p "show" = has_class t p "show") ∧
  (∀ d, 1000 ≤ d →
        has_class (document (elapse d (boot t))) p "show" = true).
Proof.
  intros Hp. destruct (boot_run t) as (ls & _ & _ & ->).
  unfold elapse, ready_timers. rewrite Hp.
  cbn [timers clock from_option filter list_filter fst]. split; intros d Hd.
  - destruct (decide (0 + 1000 ≤ 0 + d)); [lia | done].
  - destruct (decide (0 + 1000 ≤ 0 + d)); [| lia].
    apply has_class_add. by eapply getElementById_elem.
Qed.

Lemma popup_shown_after_delay_witness :
  (∀ d, d < 1000 →
        has_class (document (elapse d (boot landing_page))) [0] "show"
        = has_class landing_page [0] "show") ∧
  (∀ d, 1000 ≤ d →
        has_class (document (elapse d (boot landing_page))) [0] "show" = true).
Proof.
  apply (popup_shown_after_delay landing_page [0]). reflexivity.
Defined.

(** C6 as stated fails: on [shown_popup_page] the popup element exists
    and carries "show" from the start, well before the delay has passed. *)
Lemma popup_shown_before_delay :
  getElementById "characterPopup" shown_popup_page = Some [0] ∧
  has_class (document (boot shown_popup_page)) [0] "show" = true ∧
  has_class (document (elapse 999 (boot shown_popup_page))) [0] "show" = true.
Proof. split_and!; by vm_compute. Qed.

Lemma hide_popup_run p b :
  call (HidePopup (Some p)) b =
  (set_document
     (alter_node (on_attrs (with_classList (DOMTokenList.remove "show"))) p) b,
   Normal ()).
Proof. reflexivity. Qed.

Lemma close_listener t c :
  getElementById "closeBtn" t = Some c →
  (Element c, click, HidePopup (getElementById "characterPopup" t)) ∈ listeners (boot t).
Proof.
  intros Hc. apply boot_listeners. unfold ready_listeners. rewrite Hc. set_solver.
Qed.

Lemma vip_listener t f :
  getElementById "vip-form" t = Some f →
  (Element f, submit, SubmitForm VipForm f (getElementById "status" t))
    ∈ listeners (boot t).
Proof.
  intros Hf. apply boot_listeners. unfold ready_listeners. rewrite Hf. set_solver.
Qed.

Lemma contact_listener t f :
  getElementById "contactForm" t = Some f →
  (Element f, submit, SubmitForm ContactForm f (getElementById "contactStatus" t))
    ∈ listeners (boot t).
Proof.
  intros Hf. apply boot_listeners. unfold ready_listeners. rewrite Hf. set_solver.
Qed.

(** C7.  On a page with the close button and the popup, the click
    handler of the close button completes and leaves the popup without
    the class "show", whether or not it carried it before; its other
    classes stay as they were. *)
Theorem close_hides_popup t c p :
  getElementById "closeBtn" t = Some c →
  getElementById "characterPopup" t = Some p →
  (Element c, click, HidePopup (Some p)) ∈ listeners (boot t) ∧
  ∀ b, let r := call (HidePopup (Some p)) b in
       r.2 = Normal () ∧
       has_class (document r.1) p "show" = false ∧
       ∀ c', c' ≠ "show" → has_class (document r.1) p c' = has_class (document b) p c'.
Proof.
  intros Hc Hp. split.
  - rewrite <- Hp. by apply close_listener.
  - intros b r. subst r. rewrite hide_popup_run. cbn [fst snd set_document document].
    split_and!; [done | |].
    + rewrite has_class_remove. by rewrite bool_decide_true.
    + intros c' Hc'. rewrite has_class_remove.
      by rewrite bool_decide_false by (intros [_ ?]; done).
Qed.

Lemma close_hides_popup_witness :
  (Element [0; 0], click, HidePopup (Some [0])) ∈ listeners (boot shown_popup_page) ∧
  ∀ b, let r := call (HidePopup (Some [0])) b in
       r.2 = Normal () ∧
       has_class (document r.1) [0] "show" = false ∧
       ∀ c', c' ≠ "show" → has_class (document r.1) [0] c' = has_class (document b) [0] c'.
Proof.
  apply (close_hides_popup shown_popup_page [0; 0] [0]); reflexivity.
Defined.

(** C9.  On a page with the close button and without the popup, the
    click handler of the close button is registered all the same, and
    running it throws a TypeError and changes nothing.  In any state the
    handler completes only if it holds a popup element. *)
Theorem close_needs_popup t c :
  getElementById "closeBtn" t = Some c →
  getElementById "characterPopup" t = None →
  (Element c, click, HidePopup None) ∈ listeners (boot t) ∧
  (∀ b, call (HidePopup None) b = (b, Throw TypeError)) ∧
  (∀ popup b, (call (HidePopup popup) b).2 = Normal () → is_Some popup).
Proof.
  intros Hc Hp. split_and!.
  - rewrite <- Hp. by apply close_listener.
  - done.
  - intros [p |] b; [eauto | discriminate].
Qed.

Lemma close_needs_popup_witness :
  (Element [0], click, HidePopup None) ∈ listeners (boot no_popup_page) ∧
  (∀ b, call (HidePopup None) b = (b, Throw TypeError)) ∧
  (∀ popup b, (call (HidePopup popup) b).2 = Normal () → is_Some popup).
Proof.
  apply (close_needs_popup no_popup_page [0]); reflexivity.
Defined.

(** * Further properties of the script *)

(** ** More on the tree *)

Lemma textContent_alter g p t :
  (∀ m, textContent (g m) = textContent m) →
  textContent (alter_node g p t) = textContent t.
Proof.
  intros Hg. revert t. induction p as [| i p IH]; intros t; [apply Hg |].
  destruct t as [s | a kids]; [done |]. cbn.
  apply textContent_kids_alter, Forall_forall. auto.
Qed.

(** Writing attributes changes no text and, when the control is kept,
    no form control, wherever one looks from. *)
Lemma textContent_at_on_attrs f p t q :
  textContent_at (alter_node (on_attrs f) p t) q = textContent_at t q.
Proof.
  unfold textContent_at. revert p t. induction q as [| j q IH]; intros p t.
  - cbn. f_equal. apply textContent_alter. by intros [].
  - destruct p as [| i p]; [by destruct t |].
    destruct t as [s | a kids]; [done |]. cbn [alter_node get_node].
    rewrite list_lookup_alter. case_decide as Hij; [subst j |]; [| done].
    destruct (kids !! i) as [k |]; [| done]. apply IH.
Qed.

Lemma elements_at_on_attrs f p t q :
  (∀ a, field (f a) = field a) →
  elements_at (alter_node (on_attrs f) p t) q = elements_at t q.
Proof.
  intros Hf. unfold elements_at. revert p t.
  induction q as [| j q IH]; intros p t.
  - cbn. apply elements_alter. intros [s | a kids] _; [done |]. cbn. by rewrite Hf.
  - destruct p as [| i p]; [by destruct t |].
    destruct t as [s | a kids]; [done |]. cbn [alter_node get_node].
    rewrite list_lookup_alter. case_decide as Hij; [subst j |]; [| done].
    destruct (kids !! i) as [k |]; [| done]. apply IH.
Qed.

(** A change at [p] is not seen from an element that is neither at nor
    below [p]: its attributes are as before. *)
Lemma attrs_at_alter_outside g p t q :
  ¬ p `prefix_of` q →
  attrs_at (alter_node g p t) q = attrs_at t q.
Proof.
  unfold attrs_at. revert p t. induction q as [| j q IH]; intros p t Hpq.
  - destruct p as [| i p]; [destruct Hpq; apply prefix_nil |].
    by destruct t.
  - destruct p as [| i p]; [destruct Hpq; apply prefix_nil |].
    destruct t as [s | a kids]; [done |]. cbn [alter_node get_node].
    rewrite list_lookup_alter. case_decide as Hij; [subst j |]; [| done].
    destruct (kids !! i) as [k |] eqn:Hk; [| done]. cbn. apply IH.
    intros Hp. apply Hpq. by apply prefix_cons.
Qed.

(** Two elements neither of which lies in the other: a change at one
    leaves the whole subtree of the other as it was. *)
Lemma get_node_alter_apart g p t q :
  ¬ p `prefix_of` q → ¬ q `prefix_of` p →
  get_node (alter_node g p t) q = get_node t q.
Proof.
  revert t q. induction p as [| i p IH]; intros t q Hpq Hqp.
  - destruct Hpq. apply prefix_nil.
  - destruct q as [| j q]; [destruct Hqp; apply prefix_nil |].
    destruct t as [s | a kids]; [done |]. cbn [alter_node get_node].
    rewrite list_lookup_alter. case_decide as Hij; [subst j |]; [| done].
    destruct (kids !! i) as [k |]; [| done]. cbn. apply IH.
    + intros Hp. apply Hpq. by apply prefix_cons.
    + intros Hp. apply Hqp. by apply prefix_cons.
Qed.

Lemma attrs_at_set_textContent s p t :
  attrs_at (alter_node (set_textContent s) p t) p = attrs_at t p.
Proof.
  unfold attrs_at. rewrite get_node_alter.
  by destruct (get_node t p) as [[s' | a kids] |].
Qed.

(** [reset] changes values only: ids and class lists stay. *)
Lemma classList_reset f t q :
  classList <$> attrs_at (alter_node reset f t) q = classList <$> attrs_at t q.
Proof.
  unfold attrs_at. revert f t. induction q as [| i q IH]; intros f t.
  - destruct f as [| j f]; destruct t as [s | a kids]; done.
  - destruct f as [| j f].
    + destruct t as [s | a kids]; [done |]. cbn.
      rewrite list_lookup_fmap. destruct (kids !! i) as [k |]; [| done].
      apply (IH [] k).
    + destruct t as [s | a kids]; [done |]. cbn [alter_node get_node].
      rewrite list_lookup_alter. case_decide as Hij; [subst j |]; [| done].
      destruct (kids !! i) as [k |]; [| done]. apply (IH f k).
Qed.

Lemma has_class_reset f t q c :
  has_class (alter_node reset f t) q c = has_class t q c.
Proof.
  unfold has_class. pose proof (classList_reset f t q) as H.
  destruct (attrs_at (alter_node reset f t) q), (attrs_at t q);
    simplify_eq/=; congruence.
Qed.

Lemma is_Some_attrs_at_reset f t q :
  is_Some (attrs_at (alter_node reset f t) q) ↔ is_Some (attrs_at t q).
Proof.
  rewrite <- (fmap_is_Some classList), classList_reset. apply fmap_is_Some.
Qed.

(** ** Ids tell elements apart *)

Lemma getElementById_id i doc p :
  getElementById i doc = Some p →
  ∃ a, attrs_at doc p = Some a ∧ id a = Some i.
Proof.
  unfold getElementById. intros Hp.
  destruct (matches_sound (id_is i) doc p) as (a & Ha & Hid).
  { destruct (matches _ doc); simplify_eq/=. left. }
  exists a. split; [done |]. by apply bool_decide_eq_true in Hid.
Qed.

Lemma getElementById_apart i j doc p q :
  i ≠ j → getElementById i doc = Some p → getElementById j doc = Some q → p ≠ q.
Proof.
  intros Hij Hp Hq ->.
  apply getElementById_id in Hp as (a & Ha & Hi).
  apply getElementById_id in Hq as (a' & Ha' & Hj). congruence.
Qed.

(** ** The listeners in place after page-ready *)

Lemma faq_listener_shape doc item l :
  faq_listener doc item = Some l → is_faq_listener l.
Proof.
  unfold faq_listener. destruct (querySelector "faq-question" doc item) as [q |]; [| done].
  intros [= <-]. by eexists _, _, _.
Qed.

Lemma forEach_attach_faq items b :
  ∃ ls, (forEach attach_faq items b).1 = add_listeners ls b ∧
        Forall is_faq_listener ls.
Proof.
  revert b. induction items as [| i items IH]; intros b.
  - exists []. by rewrite add_listeners_nil.
  - rewrite forEach_cons, attach_faq_run.
    destruct (faq_listener (document b) i) as [l |] eqn:Hl.
    + destruct (IH (add_listeners [l] b)) as (ls & -> & Hls).
      exists (l :: ls). rewrite add_listeners_app. split; [done |].
      constructor; [by eapply faq_listener_shape | done].
    + exists []. by rewrite add_listeners_nil.
Qed.

Lemma is_faq_listener_click l : is_faq_listener l → l.1.2 = click.
Proof. by intros (q & a & r & ->). Qed.

(** The state after page-ready, with the FAQ listeners known to be
    click handlers that toggle. *)
Lemma boot_shape t :
  ∃ ls, Forall is_faq_listener ls ∧
        boot t =
        Browser t ((Document, DOMContentLoaded, OnReady) :: ls ++ ready_listeners t)
          (ready_timers 0 t) 0 [] [].
Proof.
  unfold boot. rewrite main_run.
  destruct (forEach_attach_faq (querySelectorAll "faq-item" t)
              (add_listeners [(Document, DOMContentLoaded, OnReady)] (load t)))
    as (ls & -> & Hls).
  exists ls. split; [done |].
  unfold dispatch, listening. cbn [event_path foldl].
  cbn [add_listeners set_listeners load listeners app].
  cbn [omap list_omap fst snd]. rewrite decide_True by done.
  rewrite omap_ready_click
    by (eapply Forall_impl; [done | apply is_faq_listener_click]).
  cbn [run_all foldl call]. by rewrite on_ready_run.
Qed.

Lemma omap_faq_other_event (ls : list (target * event_name * closure)) tg e :
  Forall is_faq_listener ls → e ≠ click →
  omap (λ l, if decide (l.1 = (tg, e)) then Some l.2 else None) ls = [].
Proof.
  intros Hls He. induction Hls as [| l ls (q & a & r & ->) _ IH]; [done |].
  cbn. rewrite decide_False by congruence. exact IH.
Qed.

Lemma form_status_ids k : form_id k ≠ status_id k.
Proof. by destruct k. Qed.

(** On the form of kind [k] only the submit handler of that form listens
    for [submit]. *)
Lemma listening_submit k t f :
  getElementById (form_id k) t = Some f →
  listening (Element f) submit (boot t) =
  [SubmitForm k f (getElementById (status_id k) t)].
Proof.
  intros Hf. destruct (boot_shape t) as (ls & Hls & ->).
  unfold listening. cbn [listeners omap list_omap fst snd].
  rewrite decide_False by done. rewrite omap_app, omap_faq_other_event by done.
  unfold ready_listeners.
  destruct (getElementById "closeBtn" t), (getElementById "downloadBtn" t);
    cbn [from_option app omap list_omap fst snd];
    rewrite ?decide_False by (intros [= _]);
    destruct k; cbn [form_id status_id] in *.
  all: destruct (getElementById "contactForm" t) as [f' |] eqn:Hc;
    destruct (getElementById "vip-form" t) as [f'' |] eqn:Hv;
    simplify_eq/=; repeat case_decide; simplify_eq; try done.
  all: exfalso; by eapply (getElementById_apart "vip-form" "contactForm").
Qed.

(** ** Submitting a form, from the event to the answer *)

Lemma self_and_ancestors_shape p :
  ∃ rest, self_and_ancestors p = p :: rest ∧
          Forall (λ q, q `prefix_of` p ∧ q ≠ p) rest.
Proof.
  exists ((λ n, take n p) <$> reverse (seq 0 (length p))). split.
  - unfold self_and_ancestors. rewrite seq_S, reverse_snoc. cbn [fmap list_fmap].
    by rewrite Nat.add_0_l, firstn_all.
  - apply Forall_fmap, Forall_forall. intros n Hn.
    apply elem_of_reverse, elem_of_seq in Hn. split; [apply prefix_take |].
    intros Hp. apply (f_equal length) in Hp. rewrite length_take in Hp. lia.
Qed.

(** Nodes on which nothing listens for the event let it pass. *)
Lemma dispatch_quiet e tgs b :
  Forall (λ tg, listening tg e b = []) tgs →
  foldl (λ b tg, run_all (listening tg e b) b) b tgs = b.
Proof.
  induction 1 as [| tg tgs Htg _ IH]; [done |]. cbn [foldl]. by rewrite Htg.
Qed.

Lemma listening_ext tg e b b' :
  listeners b = listeners b' → listening tg e b = listening tg e b'.
Proof. unfold listening. by intros ->. Qed.

Lemma listening_submit_Document t : listening Document submit (boot t) = [].
Proof.
  destruct (boot_shape t) as (ls & Hls & ->).
  unfold listening. cbn [listeners omap list_omap fst snd].
  rewrite decide_False by done. rewrite omap_app, omap_faq_other_event by done.
  unfold ready_listeners.
  by destruct (getElementById "closeBtn" t), (getElementById "downloadBtn" t),
    (getElementById "vip-form" t), (getElementById "contactForm" t).
Qed.

(** On an element that is neither form nothing listens for [submit]. *)
Lemma listening_submit_elsewhere t q :
  (∀ k, getElementById (form_id k) t ≠ Some q) →
  listening (Element q) submit (boot t) = [].
Proof.
  intros Hq. pose proof (Hq VipForm) as Hv. pose proof (Hq ContactForm) as Hc.
  cbn [form_id] in Hv, Hc.
  destruct (boot_shape t) as (ls & Hls & ->).
  unfold listening. cbn [listeners omap list_omap fst snd].
  rewrite decide_False by done. rewrite omap_app, omap_faq_other_event by done.
  unfold ready_listeners.
  destruct (getElementById "closeBtn" t), (getElementById "downloadBtn" t),
    (getElementById "vip-form" t), (getElementById "contactForm" t);
    cbn [from_option app omap list_omap fst snd];
    repeat case_decide; simplify_eq; done.
Qed.

(** X1.  On a page where no form of the script lies around the form
    submitted, a [submit] event on one of the two forms, bubbling up to
    the document, runs that form's handler and no other: the default
    action is cancelled once, exactly one POST to the endpoint is in
    flight, held by that form's handler with that form's status element,
    and the document, the listeners and the timers are as they were. *)
Theorem submit_sends_one_post k t f :
  getElementById (form_id k) t = Some f →
  (∀ k' f', getElementById (form_id k') t = Some f' → f' `prefix_of` f → f' = f) →
  let b := dispatch (Element f) submit (boot t) in
  (∃ fd, inflight b =
         [Request endpoint "POST" fd k f (getElementById (status_id k) t)]) ∧
  effects b = [PreventDefault] ∧
  document b = t ∧
  listeners b = listeners (boot t) ∧
  timers b = timers (boot t).
Proof.
  intros Hf Hout b. subst b. unfold dispatch. cbn [event_path].
  destruct (self_and_ancestors_shape f) as (rest & -> & Hrest).
  rewrite fmap_cons. cbn [app foldl]. rewrite (listening_submit k) by done.
  cbn [run_all foldl]. rewrite submit_handler_sends. cbn [fst].
  rewrite dispatch_quiet.
  - destruct (boot_shape t) as (ls & _ & ->). cbn. split; [by eexists | done].
  - apply Forall_app. split.
    + apply Forall_fmap. eapply Forall_impl; [exact Hrest |].
      intros q [Hq Hne]. unfold compose.
      rewrite (listening_ext _ _ _ (boot t)) by done.
      apply listening_submit_elsewhere. intros k' Hk'. apply Hne. by eapply Hout.
    + constructor; [| constructor].
      rewrite (listening_ext _ _ _ (boot t)) by done.
      apply listening_submit_Document.
Qed.

Lemma submit_sends_one_post_witness :
  let b := dispatch (Element [2]) submit (boot landing_page) in
  (∃ fd, inflight b =
         [Request endpoint "POST" fd ContactForm [2]
            (getElementById (status_id ContactForm) landing_page)]) ∧
  effects b = [PreventDefault] ∧
  document b = landing_page ∧
  listeners b = listeners (boot landing_page) ∧
  timers b = timers (boot landing_page).
Proof.
  apply (submit_sends_one_post ContactForm landing_page [2]).
  - reflexivity.
  - intros [] f' Hf'; vm_compute in Hf'; injection Hf' as <-; [| done].
    intros [x Hx]. discriminate Hx.
Defined.

(** X2.  On a page that has a form and not its status element, the
    form's submit handler is registered holding no status element.  Run
    in any state it sends its request all the same; when the request
    settles, whatever the outcome, the rest of the handler throws a
    TypeError and leaves the state as it was: no text is shown, the form
    is not reset and what was typed stays in the fields. *)
Theorem submit_without_status_changes_nothing k t f o :
  getElementById (form_id k) t = Some f →
  getElementById (status_id k) t = None →
  (Element f, submit, SubmitForm k f None) ∈ listeners (boot t) ∧
  ∀ b, let sent := call (SubmitForm k f None) b in
       sent.2 = Normal () ∧
       length (inflight sent.1) = S (length (inflight b)) ∧
       document sent.1 = document b ∧
       submit_settled k f None o sent.1 = (sent.1, Throw TypeError).
Proof.
  intros Hf Hst. split.
  - rewrite <- Hst. destruct k; [by apply vip_listener | by apply contact_listener].
  - intros b sent. subst sent. rewrite submit_handler_sends. cbn.
    rewrite length_app, submit_settled_None. cbn. split_and!; [done | lia | done | done].
Qed.

Lemma submit_without_status_changes_nothing_witness :
  (Element [0], submit, SubmitForm VipForm [0] None) ∈ listeners (boot no_status_page) ∧
  ∀ b, let sent := call (SubmitForm VipForm [0] None) b in
       sent.2 = Normal () ∧
       length (inflight sent.1) = S (length (inflight b)) ∧
       document sent.1 = document b ∧
       submit_settled VipForm [0] None Rejected sent.1 = (sent.1, Throw TypeError).
Proof.
  apply (submit_without_status_changes_nothing VipForm no_status_page [0] Rejected);
    reflexivity.
Defined.

(** X3.  A form submission changes no class list: for every element
    that is not strictly inside the status element (whose children the
    new text replaces), each class is carried after the handler exactly
    if it was carried before.  The popup and the FAQ panels stay as they
    are. *)
Theorem submit_changes_no_class k f st o b q c :
  (∀ s, st = Some s → s `prefix_of` q → s = q) →
  has_class (document (submit_settled k f st o b).1) q c = has_class (document b) q c.
Proof.
  intros Hq. destruct st as [s |]; [| by rewrite submit_settled_None].
  rewrite submit_settled_Some. cbn. rewrite has_class_reset. unfold has_class.
  destruct (decide (s `prefix_of` q)) as [Hsq | Hsq].
  - rewrite <- (Hq s eq_refl Hsq). by rewrite attrs_at_set_textContent.
  - by rewrite attrs_at_alter_outside.
Qed.

Lemma submit_changes_no_class_witness :
  let b := elapse 1000 (boot landing_page) in
  has_class
    (document (submit_settled VipForm [1] (Some [1; 2]) Rejected b).1) [0] "show"
  = has_class (document b) [0] "show".
Proof.
  apply (submit_changes_no_class VipForm [1] (Some [1; 2]) Rejected).
  intros s [= <-] [k Hk]. discriminate Hk.
Defined.

(** X5.  The status element shows the outcome that settled last: a
    second settlement writing to the same status element replaces the
    text of the first, for either form and any two outcomes. *)
Theorem latest_outcome_is_shown k1 k2 f1 f2 s o1 o2 b :
  is_Some (attrs_at (document b) s) →
  let first := (submit_settled k1 f1 (Some s) o1 b).1 in
  let second := (submit_settled k2 f2 (Some s) o2 first).1 in
  textContent_at (document first) s = Some (status_text k1 o1) ∧
  textContent_at (document second) s = Some (status_text k2 o2).
Proof.
  intros Hs first second. subst second first.
  split; [by apply submit_settled_text |].
  apply submit_settled_text. rewrite submit_settled_Some. cbn.
  by rewrite is_Some_attrs_at_reset, attrs_at_set_textContent.
Qed.

Lemma latest_outcome_is_shown_witness :
  let b := boot landing_page in
  let first := (submit_settled VipForm [1] (Some [1; 2]) Rejected b).1 in
  let second :=
    (submit_settled VipForm [1] (Some [1; 2]) (Fulfilled (Response true)) first).1 in
  textContent_at (document first) [1; 2] = Some (status_text VipForm Rejected) ∧
  textContent_at (document second) [1; 2]
    = Some (status_text VipForm (Fulfilled (Response true))).
Proof.
  apply (latest_outcome_is_shown VipForm VipForm [1] [1] [1; 2]).
  vm_compute. eauto.
Defined.

(** X6.  Settling a submission of one form leaves the fields of another
    form as they are, typed values included, when neither form lies in
    the other and the status element written to is not around the other
    form and holds no control. *)
Theorem other_form_keeps_its_values k f s o b f2 :
  ¬ f `prefix_of` f2 → ¬ f2 `prefix_of` f →
  ¬ s `prefix_of` f2 →
  elements_at (document b) s = [] →
  elements_at (document (submit_settled k f (Some s) o b).1) f2 =
  elements_at (document b) f2.
Proof.
  intros Hff2 Hf2f Hsf2 Hs. rewrite submit_settled_Some. cbn.
  unfold elements_at at 1. rewrite get_node_alter_apart by done.
  apply elements_at_alter; [done |].
  intros m Hm. unfold elements_at in Hs. rewrite Hm in Hs.
  by rewrite Hs, elements_set_textContent.
Qed.

Lemma other_form_keeps_its_values_witness :
  let b := boot landing_page in
  elements_at
    (document (submit_settled VipForm [1] (Some [1; 2]) (Fulfilled (Response true)) b).1)
    [2]
  = elements_at (document b) [2].
Proof.
  apply (other_form_keeps_its_values VipForm [1] [1; 2]).
  - intros [k Hk]. discriminate Hk.
  - intros [k Hk]. discriminate Hk.
  - intros [k Hk]. discriminate Hk.
  - reflexivity.
Defined.

(** ** Page-ready and the popup over time *)

(** X7.  The page-ready listener completes without an exception in
    every state, whichever of the elements it looks up are missing.  It
    changes neither the document nor the clock, sends nothing, opens
    nothing, and registers at most four listeners and one timer. *)
Theorem page_ready_never_throws b :
  let r := call OnReady b in
  r.2 = Normal () ∧
  document r.1 = document b ∧
  clock r.1 = clock b ∧
  inflight r.1 = inflight b ∧
  effects r.1 = effects b ∧
  length (listeners r.1) ≤ length (listeners b) + 4 ∧
  length (timers r.1) ≤ length (timers b) + 1.
Proof.
  cbn [call]. rewrite on_ready_run. cbn.
  split_and!; try done; rewrite length_app; apply Nat.add_le_mono_l.
  - unfold ready_listeners. rewrite !length_app.
    destruct (getElementById "closeBtn" _), (getElementById "downloadBtn" _),
      (getElementById "vip-form" _), (getElementById "contactForm" _); cbn; lia.
  - unfold ready_timers. destruct (getElementById "characterPopup" _); cbn; lia.
Qed.

Lemma elapse_boot_due t p d :
  getElementById "characterPopup" t = Some p → 1000 ≤ d →
  elapse d (boot t) =
  set_document (alter_node (on_attrs (with_classList (DOMTokenList.add "show"))) p)
    (set_timers (λ _, []) (set_clock d (boot t))).
Proof.
  intros Hp Hd. destruct (boot_shape t) as (ls & _ & ->).
  unfold elapse, ready_timers. rewrite Hp.
  cbn [timers clock from_option filter list_filter fst].
  destruct (decide (0 + 1000 ≤ 0 + d)); [| lia].
  destruct (decide (¬ 0 + 1000 ≤ 0 + d)); [lia |]. reflexivity.
Qed.

(** X8.  Closing the popup before it has appeared does not cancel its
    timer: the handler of the close button only removes the class, and
    once the 1000 ms have passed the popup carries "show" all the same. *)
Theorem closing_early_does_not_cancel t p d :
  getElementById "characterPopup" t = Some p →
  1000 ≤ d →
  let closed := (call (HidePopup (Some p)) (boot t)).1 in
  has_class (document closed) p "show" = false ∧
  timers closed = timers (boot t) ∧
  has_class (document (elapse d closed)) p "show" = true.
Proof.
  intros Hp Hd closed. subst closed. rewrite hide_popup_run. cbn [fst].
  destruct (boot_shape t) as (ls & _ & ->).
  split_and!.
  - cbn. rewrite has_class_remove. by rewrite bool_decide_true.
  - done.
  - unfold elapse, ready_timers. rewrite Hp.
    cbn [timers clock set_document from_option filter list_filter fst].
    destruct (decide (0 + 1000 ≤ 0 + d)); [| lia]. cbn.
    apply has_class_add. rewrite is_Some_attrs_at_on_attrs.
    by eapply getElementById_elem.
Qed.

Lemma closing_early_does_not_cancel_witness :
  let closed := (call (HidePopup (Some [0])) (boot shown_popup_page)).1 in
  has_class (document closed) [0] "show" = false ∧
  timers closed = timers (boot shown_popup_page) ∧
  has_class (document (elapse 1000 closed)) [0] "show" = true.
Proof.
  apply (closing_early_does_not_cancel shown_popup_page [0] 1000);
    [reflexivity | lia].
Defined.

(** X9.  The popup timer fires once.  When the popup has appeared and
    is then closed, no timer is left and the popup stays without "show"
    however much more time passes. *)
Theorem closed_popup_stays_closed t p d1 d2 :
  getElementById "characterPopup" t = Some p →
  1000 ≤ d1 →
  let shown := elapse d1 (boot t) in
  let closed := (call (HidePopup (Some p)) shown).1 in
  has_class (document shown) p "show" = true ∧
  timers shown = [] ∧
  has_class (document (elapse d2 closed)) p "show" = false.
Proof.
  intros Hp Hd shown closed. subst closed shown.
  rewrite (elapse_boot_due t p) by done. rewrite hide_popup_run. cbn [fst].
  split_and!.
  - cbn [document set_document set_timers set_clock].
    apply has_class_add. rewrite boot_document. by eapply getElementById_elem.
  - done.
  - unfold elapse. cbn. rewrite has_class_remove. by rewrite bool_decide_true.
Qed.

Lemma closed_popup_stays_closed_witness :
  let shown := elapse 1500 (boot landing_page) in
  let closed := (call (HidePopup (Some [0])) shown).1 in
  has_class (document shown) [0] "show" = true ∧
  timers shown = [] ∧
  has_class (document (elapse 4000 closed)) [0] "show" = false.
Proof.
  apply (closed_popup_stays_closed landing_page [0] 1500 4000);
    [reflexivity | lia].
Defined.

(** ** More on the FAQ accordion *)

Lemma runs_S n c b : runs (S n) c b = (call c (runs n c b)).1.
Proof. reflexivity. Qed.

(** X10.  After [n] runs of the click handler of an entry that has its
    answer and its indicator, the answer carries "show" exactly if it did
    at the start and [n] is even, or did not and [n] is odd; likewise
    the indicator and "rotate".  Every run completes. *)
Theorem faq_clicks_parity a r n b :
  is_Some (attrs_at (document b) a) →
  is_Some (attrs_at (document b) r) →
  let b' := runs n (ToggleFaq (Some a) (Some r)) b in
  has_class (document b') a "show" = xorb (Nat.odd n) (has_class (document b) a "show") ∧
  has_class (document b') r "rotate" = xorb (Nat.odd n) (has_class (document b) r "rotate") ∧
  (call (ToggleFaq (Some a) (Some r)) b').2 = Normal ().
Proof.
  intros Ha Hr b'. subst b'.
  assert (Hinv : is_Some (attrs_at (document (runs n (ToggleFaq (Some a) (Some r)) b)) a) ∧
                 is_Some (attrs_at (document (runs n (ToggleFaq (Some a) (Some r)) b)) r) ∧
                 has_class (document (runs n (ToggleFaq (Some a) (Some r)) b)) a "show"
                   = xorb (Nat.odd n) (has_class (document b) a "show") ∧
                 has_class (document (runs n (ToggleFaq (Some a) (Some r)) b)) r "rotate"
                   = xorb (Nat.odd n) (has_class (document b) r "rotate")).
  { induction n as [| n (Ha' & Hr' & IHa & IHr)]; [done |].
    rewrite runs_S.
    destruct (faq_click_toggles a r _ Ha' Hr') as [Hta Htr].
    rewrite toggle_faq_document, !is_Some_attrs_at_on_attrs.
    rewrite toggle_faq_document in Hta, Htr.
    rewrite Hta, Htr, IHa, IHr, Nat.odd_succ, <- Nat.negb_odd.
    split_and!; [done | done | apply negb_xorb_l | apply negb_xorb_l]. }
  destruct Hinv as (_ & _ & Hsa & Hsr). by split_and!.
Qed.

Lemma faq_clicks_parity_witness :
  let b' := runs 3 (ToggleFaq (Some [3; 1]) (Some [3; 0; 1])) (boot landing_page) in
  has_class (document b') [3; 1] "show"
    = xorb (Nat.odd 3) (has_class (document (boot landing_page)) [3; 1] "show") ∧
  has_class (document b') [3; 0; 1] "rotate"
    = xorb (Nat.odd 3) (has_class (document (boot landing_page)) [3; 0; 1] "rotate") ∧
  (call (ToggleFaq (Some [3; 1]) (Some [3; 0; 1])) b').2 = Normal ().
Proof.
  apply (faq_clicks_parity [3; 1] [3; 0; 1] 3 (boot landing_page));
    vm_compute; eauto.
Defined.

(** X11.  An entry without indicator still opens and closes: the click
    handler flips the answer's "show" and only then throws a TypeError.
    An entry without answer does nothing: the handler throws at once
    and the indicator, if there is one, is not rotated. *)
Theorem faq_click_with_missing_parts a b :
  is_Some (attrs_at (document b) a) →
  let r := call (ToggleFaq (Some a) None) b in
  r.2 = Throw TypeError ∧
  has_class (document r.1) a "show" = negb (has_class (document b) a "show") ∧
  (∀ q c, (q, c) ≠ (a, "show") →
          has_class (document r.1) q c = has_class (document b) q c) ∧
  (∀ arrow, call (ToggleFaq None arrow) b = (b, Throw TypeError)).
Proof.
  intros Ha r. subst r. split_and!; [done | | | done].
  - rewrite toggle_faq_document_no_arrow, has_class_toggle.
    rewrite (bool_decide_true (is_Some _)) by done.
    case_bool_decide as H; [done | by destruct H].
  - intros q c Hqc. rewrite toggle_faq_document_no_arrow, has_class_toggle.
    rewrite (bool_decide_false (a = q ∧ "show" = c)); [done |].
    intros [-> <-]. done.
Qed.

Lemma faq_click_with_missing_parts_witness :
  let b := boot landing_page in
  let r := call (ToggleFaq (Some [3; 1]) None) b in
  r.2 = Throw TypeError ∧
  has_class (document r.1) [3; 1] "show" = negb (has_class (document b) [3; 1] "show") ∧
  (∀ q c, (q, c) ≠ ([3; 1], "show") →
          has_class (document r.1) q c = has_class (document b) q c) ∧
  (∀ arrow, call (ToggleFaq None arrow) b = (b, Throw TypeError)).
Proof.
  apply (faq_click_with_missing_parts [3; 1] (boot landing_page)).
  vm_compute. eauto.
Defined.

(** X12.  The click handler of an FAQ entry touches class lists and
    nothing else: whatever its answer and indicator, the controls and
    the text of every element, the requests in flight, the recorded
    effects, the listeners and the timers are the same after the run. *)
Theorem faq_click_touches_classes_only answer arrow b :
  let b' := (call (ToggleFaq answer arrow) b).1 in
  (∀ q, elements_at (document b') q = elements_at (document b) q) ∧
  (∀ q, textContent_at (document b') q = textContent_at (document b) q) ∧
  inflight b' = inflight b ∧
  effects b' = effects b ∧
  listeners b' = listeners b ∧
  timers b' = timers b.
Proof.
  intros b'. subst b'.
  destruct answer as [a |]; [| by rewrite toggle_faq_no_answer].
  destruct arrow as [r |].
  - rewrite toggle_faq_document. split_and!; try done.
    + intros q. by rewrite !elements_at_on_attrs.
    + intros q. by rewrite !textContent_at_on_attrs.
  - rewrite toggle_faq_document_no_arrow. split_and!; try done.
    + intros q. by rewrite elements_at_on_attrs.
    + intros q. by rewrite textContent_at_on_attrs.
Qed.

Lemma forEach_attach_completes_iff items b :
  (forEach attach_faq items b).2 = Normal () ↔
  Forall (λ i, is_Some (querySelector "faq-question" (document b) i)) items.
Proof.
  revert b. induction items as [| i items IH]; intros b; [done |].
  rewrite forEach_cons, attach_faq_run, Forall_cons, <- faq_listener_is_Some.
  destruct (faq_listener (document b) i) as [l |].
  - rewrite (IH (add_listeners [l] b)). split; [by eauto | by intros [_ ?]].
  - split; [done | by intros [[? ?] _]].
Qed.

(** X13.  The script runs to its end without an exception exactly if
    every element matched by ".faq-item" has a ".faq-question"
    descendant; entries without answer or indicator do not stop it.  In
    either case the page-ready listener is registered first. *)
Theorem script_completes_iff t :
  ((main (load t)).2 = Normal () ↔
   Forall (λ i, is_Some (querySelector "faq-question" t i))
     (querySelectorAll "faq-item" t)) ∧
  head (listeners (main (load t)).1) = Some (Document, DOMContentLoaded, OnReady).
Proof.
  rewrite main_run. split; [apply forEach_attach_completes_iff |].
  destruct (forEach_attach_faq (querySelectorAll "faq-item" t)
              (add_listeners [(Document, DOMContentLoaded, OnReady)] (load t)))
    as (ls & -> & _).
  done.
Qed.

(** ** The download button and what handlers never do *)

(** X14.  The download handler is registered on the element with the id
    "downloadBtn", for clicks, and nowhere else: on a page without that
    element the script holds no such handler.  Run in any state, the
    handler opens the installer path once, completes, and changes
    nothing else. *)
Theorem download_handler_on_button_only t :
  (∀ tg e, (tg, e, OpenDownload) ∈ listeners (boot t) ↔
           e = click ∧ ∃ d, tg = Element d ∧ getElementById "downloadBtn" t = Some d) ∧
  (∀ b, call OpenDownload b =
        (set_effects (λ l, l ++ [WindowOpen "dist/aquabriz.exe"]) b, Normal ())).
Proof.
  split; [| done]. intros tg e. split.
  - destruct (boot_shape t) as (ls & Hls & ->). cbn [listeners].
    rewrite elem_of_cons, elem_of_app. intros [Hin | [Hin | Hin]].
    + discriminate Hin.
    + rewrite Forall_forall in Hls. by destruct (Hls _ Hin) as (q & a & r & ?).
    + unfold ready_listeners in Hin.
      destruct (getElementById "closeBtn" t), (getElementById "downloadBtn" t),
        (getElementById "vip-form" t), (getElementById "contactForm" t);
        cbn [from_option app] in Hin;
        repeat (rewrite elem_of_cons in Hin || rewrite elem_of_nil in Hin);
        naive_solver.
  - intros (-> & d & -> & Hd). apply boot_listeners.
    unfold ready_listeners. rewrite Hd. set_solver.
Qed.

(** X15.  No handler of the script registers a listener or a timer: the
    timer callback, the close, download and FAQ click handlers, and the
    submit handlers both up to their [await] and after it, leave the
    listeners, the timers and the clock as they were, in every state and
    whether they complete or throw.  (What registers is the top level of
    the script and the page-ready listener.) *)
Theorem handlers_register_nothing c k f st o b :
  c ≠ OnReady →
  let unchanged b' :=
    listeners b' = listeners b ∧ timers b' = timers b ∧ clock b' = clock b in
  unchanged (call c b).1 ∧
  unchanged (submit_settled k f st o b).1.
Proof.
  intros Hc unchanged. subst unchanged. split.
  - by destruct c as [| p | [p |] | | k' f' st' | [a |] [r |]].
  - destruct st as [s |]; [by rewrite submit_settled_Some | by rewrite submit_settled_None].
Qed.

Lemma handlers_register_nothing_witness :
  let b := boot landing_page in
  let unchanged b' :=
    listeners b' = listeners b ∧ timers b' = timers b ∧ clock b' = clock b in
  unchanged (call (ToggleFaq (Some [3; 1]) None) b).1 ∧
  unchanged (submit_settled VipForm [1] (Some [1; 2]) Rejected b).1.
Proof.
  apply (handlers_register_nothing (ToggleFaq (Some [3; 1]) None)
           VipForm [1] (Some [1; 2]) Rejected).
  discriminate.
Defined.

(** X16.  On a page without the popup element no timer is set, and the
    passing of time changes nothing: however long one waits after the
    page is ready, the document is the page as loaded and nothing has
    been sent or opened. *)
Theorem page_without_popup_never_changes t :
  getElementById "characterPopup" t = None →
  timers (boot t) = [] ∧
  ∀ d, document (elapse d (boot t)) = t ∧
       inflight (elapse d (boot t)) = [] ∧
       effects (elapse d (boot t)) = [].
Proof.
  intros Hp. destruct (boot_shape t) as (ls & _ & ->).
  unfold elapse, ready_timers. cbn [timers]. by rewrite Hp.
Qed.

Lemma page_without_popup_never_changes_witness :
  timers (boot no_popup_page) = [] ∧
  ∀ d, document (elapse d (boot no_popup_page)) = no_popup_page ∧
       inflight (elapse d (boot no_popup_page)) = [] ∧
       effects (elapse d (boot no_popup_page)) = [].
Proof.
  apply (page_without_popup_never_changes no_popup_page). reflexivity.
Defined.
